(** * Virtual-quadrant augmentation of a p4est forest

    A shallow embedding of [src/src/p4est_virtual.c]: the classifier that
    decides which quadrants host virtual children, the per-level index
    tables, the memory accounting and the mirror resolver of the ghost
    exchange.

    Conventions.
    - C [int], [p4est_locidx_t] and [int8_t] values are integers of [Z].
      Signed overflow is undefined in C and no wrap-around is modelled for
      them: tokens and counters stay below the number of quadrants and
      offsets below [1 + CHILDREN] times that number (lemmas
      [tokens_in_range] and [offsets_in_range]).
      [size_t] arithmetic (memory accounting) wraps modulo [2^64].
    - A C array is a [list]; an access outside of the allocated range is
      undefined behaviour in C and makes the embedded function return
      [None].  [load] and [store] are the only array primitives.
    - Loops [for (i = a; i < b; ++i)] are folds over [seqZ a (b - a)]. *)

From Stdlib Require Import ZArith List Bool Lia.
From stdpp Require Import base option list.

Open Scope Z_scope.

(** ** Arrays with checked bounds *)

Definition load {A} (a : list A) (i : Z) : option A :=
  if 0 <=? i then a !! Z.to_nat i else None.

Definition store {A} (a : list A) (i : Z) (v : A) : option (list A) :=
  if (0 <=? i) && (i <? Z.of_nat (length a))
  then Some (<[Z.to_nat i := v]> a) else None.

(** A loop whose body may fail. *)
Fixpoint foldM {S A} (body : S → A → option S) (l : list A) (s : S)
  : option S :=
  match l with
  | [] => Some s
  | x :: l' => s' ← body s x; foldM body l' s'
  end.

(** The array whose entry [i] is [f i], for [0 <= i < n]; and the number
    of indices below [k] that satisfy a test.  Both are used to write down
    what the loops compute. *)
Definition tab {A} (f : Z → A) (n : Z) : list A := f <$> seqZ 0 n.

Definition count (P : Z → bool) (k : Z) : Z :=
  Z.of_nat (length (List.filter P (seqZ 0 k))).

(** ** Data model *)

(** [p4est_connect_type_t].  The 2D build has no edge connectivity. *)
Inductive p4est_connect_type_t :=
| P4EST_CONNECT_FACE
| P8EST_CONNECT_EDGE
| P4EST_CONNECT_FULL.

(** Only the refinement level of a quadrant is read by this file. *)
Record p4est_quadrant_t := { level : Z }.

Record p4est_t := {
  mpisize : Z;
  quadrants : list p4est_quadrant_t   (* local quadrants, by local index *)
}.

Record p4est_ghost_t := {
  ghosts : list p4est_quadrant_t;
  mirror_proc_offsets : list Z
}.

(** One entry of the three parallel arrays that
    [p4est_mesh_get_neighbors] fills: the neighbor quadrant, its encoding
    and its quadrant index. *)
Record mesh_neighbor := {
  nb_quad : p4est_quadrant_t;
  nb_enc : Z;
  nb_qid : Z
}.

Record p4est_mesh_t := {
  mesh_local_num_quadrants : Z;
  mesh_ghost_num_quadrants : Z;
  parallel_boundary : option (list Z);      (* NULL or one entry per quadrant *)
  mirror_qid : list Z;
  ghost_to_proc : list Z;
  mesh_neighbors : Z → Z → list mesh_neighbor
}.

(** The optional part of [p4est_virtual_t]: the six pointers are allocated
    together by the constructor and are all NULL otherwise; the code tests
    [quad_qreal_offset] only. *)
Record level_lists_t := {
  quad_qreal_offset : list Z;
  quad_qvirtual_offset : list Z;
  quad_greal_offset : list Z;
  quad_gvirtual_offset : list Z;
  virtual_qlevels : list (list Z);
  virtual_glevels : list (list Z)
}.

Record p4est_virtual_t := {
  btype : p4est_connect_type_t;
  local_num_quadrants : Z;
  ghost_num_quadrants : Z;
  virtual_qflags : list Z;
  virtual_gflags : list Z;
  level_lists : option level_lists_t
}.

Record p4est_virtual_ghost_t := {
  ghost_btype : p4est_connect_type_t;
  mirror_proc_virtuals : list Z
}.

(** Field updates. *)
Definition set_qflags (v : p4est_virtual_t) (f : list Z) : p4est_virtual_t :=
  {| btype := btype v; local_num_quadrants := local_num_quadrants v;
     ghost_num_quadrants := ghost_num_quadrants v;
     virtual_qflags := f; virtual_gflags := virtual_gflags v;
     level_lists := level_lists v |}.

Definition set_gflags (v : p4est_virtual_t) (f : list Z) : p4est_virtual_t :=
  {| btype := btype v; local_num_quadrants := local_num_quadrants v;
     ghost_num_quadrants := ghost_num_quadrants v;
     virtual_qflags := virtual_qflags v; virtual_gflags := f;
     level_lists := level_lists v |}.

Definition set_level_lists (v : p4est_virtual_t) (ll : option level_lists_t)
  : p4est_virtual_t :=
  {| btype := btype v; local_num_quadrants := local_num_quadrants v;
     ghost_num_quadrants := ghost_num_quadrants v;
     virtual_qflags := virtual_qflags v; virtual_gflags := virtual_gflags v;
     level_lists := ll |}.

Definition set_qreal (ll : level_lists_t) (a : list Z) : level_lists_t :=
  {| quad_qreal_offset := a; quad_qvirtual_offset := quad_qvirtual_offset ll;
     quad_greal_offset := quad_greal_offset ll;
     quad_gvirtual_offset := quad_gvirtual_offset ll;
     virtual_qlevels := virtual_qlevels ll;
     virtual_glevels := virtual_glevels ll |}.

Definition set_qvirtual (ll : level_lists_t) (a : list Z) (lv : list (list Z))
  : level_lists_t :=
  {| quad_qreal_offset := quad_qreal_offset ll; quad_qvirtual_offset := a;
     quad_greal_offset := quad_greal_offset ll;
     quad_gvirtual_offset := quad_gvirtual_offset ll;
     virtual_qlevels := lv;
     virtual_glevels := virtual_glevels ll |}.

Definition set_greal (ll : level_lists_t) (a : list Z) : level_lists_t :=
  {| quad_qreal_offset := quad_qreal_offset ll;
     quad_qvirtual_offset := quad_qvirtual_offset ll;
     quad_greal_offset := a;
     quad_gvirtual_offset := quad_gvirtual_offset ll;
     virtual_qlevels := virtual_qlevels ll;
     virtual_glevels := virtual_glevels ll |}.

Definition set_gvirtual (ll : level_lists_t) (a : list Z) (lv : list (list Z))
  : level_lists_t :=
  {| quad_qreal_offset := quad_qreal_offset ll;
     quad_qvirtual_offset := quad_qvirtual_offset ll;
     quad_greal_offset := quad_greal_offset ll;
     quad_gvirtual_offset := a;
     virtual_qlevels := virtual_qlevels ll;
     virtual_glevels := lv |}.

(** The scratch data that the constructor threads through a pass: the
    structure under construction, the two per-level counters and the
    running virtual index. *)
Record pass_state := {
  st_virtual : p4est_virtual_t;
  st_real : list Z;
  st_virt : list Z;
  st_last : Z
}.

(** ** Collaborators *)

(** Modelled from the spec: [p4est_mesh_get_quadrant] (mesh module, not in
    this file) returns the local quadrant with the given index. *)
Definition p4est_mesh_get_quadrant (p4est : p4est_t) (mesh : p4est_mesh_t)
  (qid : Z) : option p4est_quadrant_t :=
  load (quadrants p4est) qid.

(** Modelled from the spec: [p4est_mesh_get_neighbors] (mesh module, not in
    this file) returns, for a local quadrant and a direction, three
    parallel sequences of equal length: quadrants, encodings and ids. *)
Definition p4est_mesh_get_neighbors (p4est : p4est_t) (ghost : p4est_ghost_t)
  (mesh : p4est_mesh_t) (qid dir : Z) : list mesh_neighbor :=
  mesh_neighbors mesh qid dir.

Section Virtual.

(** Build parameters, fixed by the headers: whether the file is compiled
    for octrees, and the deepest level a quadrant may have. *)
Variable P4_TO_P8 : bool.
Variable P4EST_QMAXLEVEL : Z.

(** Modelled from the spec: [CHILDREN = 2^D], [FACES = 2 D], 12 edges. *)
Definition P4EST_CHILDREN : Z := if P4_TO_P8 then 8 else 4.
Definition P4EST_FACES : Z := if P4_TO_P8 then 6 else 4.
Definition P8EST_EDGES : Z := 12.

(** The [switch] on the connection type that opens both classifiers and
    the mirror resolver; [None] is [SC_ABORT_NOT_REACHED]. *)
Definition direction_count (bt : p4est_connect_type_t) : option Z :=
  match bt with
  | P4EST_CONNECT_FACE => Some P4EST_FACES
  | P8EST_CONNECT_EDGE =>
      if P4_TO_P8 then Some (P4EST_FACES + P8EST_EDGES) else None
  | P4EST_CONNECT_FULL =>
      Some (P4EST_FACES + (if P4_TO_P8 then P8EST_EDGES else 0)
            + P4EST_CHILDREN)
  end.

(** ** Level indexing shared by both classifiers

    Lines 119-136 of [has_virtuals_inner]; lines 221-238 of
    [has_virtuals_parallel_boundary] repeat them verbatim. *)
Definition account_quadrant (has_virtuals : bool) (qid lvl : Z)
  (st : pass_state) : option pass_state :=
  st1 ← match level_lists (st_virtual st) with
        | Some ll =>
            r ← load (st_real st) lvl;
            v ← load (st_virt st) lvl;
            qro ← store (quad_qreal_offset ll) qid (r + P4EST_CHILDREN * v);
            real' ← store (st_real st) lvl (r + 1);
            Some {| st_virtual :=
                      set_level_lists (st_virtual st) (Some (set_qreal ll qro));
                    st_real := real'; st_virt := st_virt st;
                    st_last := st_last st |}
        | None => Some st
        end;
  if has_virtuals then
    let last := st_last st1 + 1 in
    qf ← store (virtual_qflags (st_virtual st1)) qid last;
    let vq := set_qflags (st_virtual st1) qf in
    match level_lists vq with
    | Some ll =>
        r ← load (st_real st1) (lvl + 1);
        v ← load (st_virt st1) (lvl + 1);
        qvo ← store (quad_qvirtual_offset ll) qid (r + P4EST_CHILDREN * v);
        virt' ← store (st_virt st1) (lvl + 1) (v + 1);
        lst ← load (virtual_qlevels ll) (lvl + 1);
        qlv ← store (virtual_qlevels ll) (lvl + 1) (lst ++ [qid]);
        Some {| st_virtual :=
                  set_level_lists vq (Some (set_qvirtual ll qvo qlv));
                st_real := st_real st1; st_virt := virt';
                st_last := last |}
    | None =>
        Some {| st_virtual := vq; st_real := st_real st1;
                st_virt := st_virt st1; st_last := last |}
    end
  else Some st1.

(** ** Interior mode *)

(** The loop over the neighbors of one direction, left at the first
    strictly finer one. *)
Fixpoint finer_neighbor (lvl : Z) (quads : list mesh_neighbor) : bool :=
  match quads with
  | [] => false
  | nb :: rest =>
      if lvl <? level (nb_quad nb) then true else finer_neighbor lvl rest
  end.

(** The loop over the directions, left as soon as [has_virtuals] is set. *)
Fixpoint inner_directions (p4est : p4est_t) (ghost : p4est_ghost_t)
  (mesh : p4est_mesh_t) (qid lvl : Z) (dirs : list Z) : bool :=
  match dirs with
  | [] => false
  | i :: rest =>
      if finer_neighbor lvl (p4est_mesh_get_neighbors p4est ghost mesh qid i)
      then true
      else inner_directions p4est ghost mesh qid lvl rest
  end.

Definition has_virtuals_inner (p4est : p4est_t) (ghost : p4est_ghost_t)
  (mesh : p4est_mesh_t) (qid : Z) (st : pass_state) : option pass_state :=
  curr_quad ← p4est_mesh_get_quadrant p4est mesh qid;
  let lvl := level curr_quad in
  imax ← direction_count (btype (st_virtual st));
  let has_virtuals :=
    inner_directions p4est ghost mesh qid lvl (seqZ 0 imax) in
  account_quadrant has_virtuals qid lvl st.

(** ** Boundary mode *)

(** The range test of the ghost branch, upper bound included. *)
Definition ghost_check (lq gq neighbor_qid : Z) : bool :=
  (lq <=? neighbor_qid) && (neighbor_qid <=? lq + gq).

(** The loop over the neighbors of one direction: no early exit, coarser
    ghosts are marked with 1. *)
Fixpoint boundary_neighbors (lq gq lvl : Z) (nbs : list mesh_neighbor)
  (acc : bool * list Z) : option (bool * list Z) :=
  match nbs with
  | [] => Some acc
  | nb :: rest =>
      let '(has_virtuals, gflags) := acc in
      acc' ← (if lvl <? level (nb_quad nb) then Some (true, gflags)
              else if ghost_check lq gq (nb_qid nb)
                      && (level (nb_quad nb) <? lvl)
                   then gflags' ← store gflags (nb_qid nb - lq) 1;
                        Some (has_virtuals, gflags')
                   else Some (has_virtuals, gflags));
      boundary_neighbors lq gq lvl rest acc'
  end.

Fixpoint boundary_directions (p4est : p4est_t) (ghost : p4est_ghost_t)
  (mesh : p4est_mesh_t) (lq gq qid lvl : Z) (dirs : list Z)
  (acc : bool * list Z) : option (bool * list Z) :=
  match dirs with
  | [] => Some acc
  | i :: rest =>
      acc' ← boundary_neighbors lq gq lvl
               (p4est_mesh_get_neighbors p4est ghost mesh qid i) acc;
      boundary_directions p4est ghost mesh lq gq qid lvl rest acc'
  end.

Definition has_virtuals_parallel_boundary (p4est : p4est_t)
  (ghost : p4est_ghost_t) (mesh : p4est_mesh_t) (qid : Z) (st : pass_state)
  : option pass_state :=
  curr_quad ← p4est_mesh_get_quadrant p4est mesh qid;
  let lq := local_num_quadrants (st_virtual st) in
  let gq := ghost_num_quadrants (st_virtual st) in
  let lvl := level curr_quad in
  imax ← direction_count (btype (st_virtual st));
  '(has_virtuals, gflags) ←
     boundary_directions p4est ghost mesh lq gq qid lvl (seqZ 0 imax)
       (false, virtual_gflags (st_virtual st));
  account_quadrant has_virtuals qid lvl
    {| st_virtual := set_gflags (st_virtual st) gflags;
       st_real := st_real st; st_virt := st_virt st;
       st_last := st_last st |}.

(** ** The constructor *)

(** Body of the first loop of [p4est_virtual_new_ext]. *)
Definition classify_quadrant (p4est : p4est_t) (ghost : p4est_ghost_t)
  (mesh : p4est_mesh_t) (st : pass_state) (quad : Z) : option pass_state :=
  match parallel_boundary mesh with
  | Some pb =>
      b ← load pb quad;
      if b =? -1 then has_virtuals_inner p4est ghost mesh quad st
      else has_virtuals_parallel_boundary p4est ghost mesh quad st
  | None => has_virtuals_parallel_boundary p4est ghost mesh quad st
  end.

(** Body of the second loop of [p4est_virtual_new_ext]. *)
Definition index_ghost (ghost : p4est_ghost_t) (st : pass_state) (quad : Z)
  : option pass_state :=
  match level_lists (st_virtual st) with
  | Some ll =>
      ghost_quad ← load (ghosts ghost) quad;
      let lvl := level ghost_quad in
      r ← load (st_real st) lvl;
      v ← load (st_virt st) lvl;
      gro ← store (quad_greal_offset ll) quad (r + P4EST_CHILDREN * v);
      real' ← store (st_real st) lvl (r + 1);
      let ll1 := set_greal ll gro in
      flag ← load (virtual_gflags (st_virtual st)) quad;
      if negb (flag =? -1) then
        gf ← store (virtual_gflags (st_virtual st)) quad (st_last st);
        r1 ← load real' (lvl + 1);
        v1 ← load (st_virt st) (lvl + 1);
        gvo ← store (quad_gvirtual_offset ll1) quad (r1 + P4EST_CHILDREN * v1);
        virt' ← store (st_virt st) (lvl + 1) (v1 + 1);
        lst ← load (virtual_glevels ll1) (lvl + 1);
        glv ← store (virtual_glevels ll1) (lvl + 1) (lst ++ [quad]);
        Some {| st_virtual :=
                  set_level_lists (set_gflags (st_virtual st) gf)
                    (Some (set_gvirtual ll1 gvo glv));
                st_real := real'; st_virt := virt';
                st_last := st_last st + 1 |}
      else
        Some {| st_virtual := set_level_lists (st_virtual st) (Some ll1);
                st_real := real'; st_virt := st_virt st;
                st_last := st_last st |}
  | None =>
      flag ← load (virtual_gflags (st_virtual st)) quad;
      if negb (flag =? -1) then
        gf ← store (virtual_gflags (st_virtual st)) quad (st_last st);
        Some {| st_virtual := set_gflags (st_virtual st) gf;
                st_real := st_real st; st_virt := st_virt st;
                st_last := st_last st + 1 |}
      else Some st
  end.

(** [P4EST_ALLOC] followed by [memset (-1)], and [P4EST_ALLOC_ZERO]. *)
Definition alloc_filled {A} (n : Z) (x : A) : list A :=
  replicate (Z.to_nat n) x.

(** The structure as allocated and filled with -1, before the passes. *)
Definition allocate_virtual (mesh : p4est_mesh_t) (bt : p4est_connect_type_t)
  (compute_level_lists : bool) : p4est_virtual_t :=
  let lq := mesh_local_num_quadrants mesh in
  let gq := mesh_ghost_num_quadrants mesh in
  let nlev := P4EST_QMAXLEVEL + 1 in
  {| btype := bt; local_num_quadrants := lq; ghost_num_quadrants := gq;
     virtual_qflags := alloc_filled lq (-1);
     virtual_gflags := alloc_filled gq (-1);
     level_lists :=
       if compute_level_lists then
         Some {| quad_qreal_offset := alloc_filled lq (-1);
                 quad_qvirtual_offset := alloc_filled lq (-1);
                 quad_greal_offset := alloc_filled gq (-1);
                 quad_gvirtual_offset := alloc_filled gq (-1);
                 virtual_qlevels := alloc_filled nlev [];
                 virtual_glevels := alloc_filled nlev [] |}
       else None |}.

(** A pass starts from zeroed per-level counters ([lq_per_level_*] for
    the first loop, [gq_per_level_*] for the second) and a given value of
    [last_virtual_index]. *)
Definition start_pass (virtual_quads : p4est_virtual_t) (last : Z)
  : pass_state :=
  {| st_virtual := virtual_quads;
     st_real := alloc_filled (P4EST_QMAXLEVEL + 1) 0;
     st_virt := alloc_filled (P4EST_QMAXLEVEL + 1) 0;
     st_last := last |}.

(** The constructor: the first loop classifies the owned quadrants, the
    second renumbers the marked ghosts.  The two input checks of lines
    273-274, [P4EST_ASSERT (p4est_is_balanced (p4est, btype))] and
    [P4EST_ASSERT (btype <= mesh->btype)], are compiled in debug builds
    only and read what the model does not carry (the coordinates of the
    forest, the connection type the mesh was built with); this is the
    function without them, to be read on inputs that pass them. *)
Definition p4est_virtual_new_ext (p4est : p4est_t) (ghost : p4est_ghost_t)
  (mesh : p4est_mesh_t) (bt : p4est_connect_type_t)
  (compute_level_lists : bool) : option p4est_virtual_t :=
  let lq := mesh_local_num_quadrants mesh in
  let gq := mesh_ghost_num_quadrants mesh in
  st1 ← foldM (classify_quadrant p4est ghost mesh) (seqZ 0 lq)
        (start_pass (allocate_virtual mesh bt compute_level_lists) (-1));
  st2 ← foldM (index_ghost ghost) (seqZ 0 gq)
        (start_pass (st_virtual st1) 0);
  Some (st_virtual st2).

Definition p4est_virtual_new (p4est : p4est_t) (ghost : p4est_ghost_t)
  (mesh : p4est_mesh_t) (bt : p4est_connect_type_t) : option p4est_virtual_t :=
  p4est_virtual_new_ext p4est ghost mesh bt false.

(** ** Ghost exchange: the mirror resolver *)

(** The loop over the neighbors of one direction of a mirror. *)
Fixpoint mirror_neighbors (mesh : p4est_mesh_t) (lq gq proc mirror_idx : Z)
  (nbs : list mesh_neighbor) (mpv : list Z) : option (list Z) :=
  match nbs with
  | [] => Some mpv
  | nb :: rest =>
      let neighbor_qid := nb_qid nb in
      mpv' ← (if (lq <=? neighbor_qid) && (neighbor_qid <? lq + gq) then
                owner ← load (ghost_to_proc mesh) (neighbor_qid - lq);
                if owner =? proc then
                  if nb_enc nb <? 0 then store mpv mirror_idx 1 else Some mpv
                else Some mpv
              else Some mpv);
      mirror_neighbors mesh lq gq proc mirror_idx rest mpv'
  end.

(** Body of the loop over the mirrors sent to [proc].  The flag of the
    mirror is used as a C truth value: any value but 0 enters the scan. *)
Definition resolve_mirror (p4est : p4est_t) (ghost : p4est_ghost_t)
  (mesh : p4est_mesh_t) (virtual_quads : p4est_virtual_t)
  (max_neighbor_idx proc : Z) (mpv : list Z) (mirror_idx : Z)
  : option (list Z) :=
  let lq := mesh_local_num_quadrants mesh in
  let gq := mesh_ghost_num_quadrants mesh in
  mirror ← load (mirror_qid mesh) mirror_idx;
  flag ← load (virtual_qflags virtual_quads) mirror;
  if negb (flag =? 0) then
    foldM (λ mpv neighbor_idx,
             mirror_neighbors mesh lq gq proc mirror_idx
               (p4est_mesh_get_neighbors p4est ghost mesh mirror neighbor_idx)
               mpv)
          (seqZ 0 max_neighbor_idx) mpv
  else Some mpv.

(** Body of the loop over the processes. *)
Definition resolve_proc (p4est : p4est_t) (ghost : p4est_ghost_t)
  (mesh : p4est_mesh_t) (virtual_quads : p4est_virtual_t)
  (max_neighbor_idx : Z) (mpv : list Z) (proc : Z) : option (list Z) :=
  offset_begin ← load (mirror_proc_offsets ghost) proc;
  offset_end ← load (mirror_proc_offsets ghost) (proc + 1);
  foldM (resolve_mirror p4est ghost mesh virtual_quads max_neighbor_idx proc)
        (seqZ offset_begin (offset_end - offset_begin)) mpv.

Definition p4est_virtual_ghost_new (p4est : p4est_t) (ghost : p4est_ghost_t)
  (mesh : p4est_mesh_t) (virtual_quads : p4est_virtual_t)
  (bt : p4est_connect_type_t) : option p4est_virtual_ghost_t :=
  mirrors ← load (mirror_proc_offsets ghost) (mpisize p4est);
  max_neighbor_idx ← direction_count bt;
  mpv ← foldM (resolve_proc p4est ghost mesh virtual_quads max_neighbor_idx)
          (seqZ 0 (mpisize p4est)) (alloc_filled mirrors 0);
  Some {| ghost_btype := bt; mirror_proc_virtuals := mpv |}.

Definition p4est_virtual_ghost_memory_used
  (virtual_ghost : p4est_virtual_ghost_t) : Z := 0.

(** ** Memory accounting *)

Section Memory.

(** Sizes fixed by the platform, and the bytes libsc reports for the body
    of an array with the given elements ([sc_array_memory_used], whose
    second argument says whether the header is counted too). *)
Variable sizeof_locidx : Z.
Variable sizeof_sc_array : Z.
Variable sizeof_virtual : Z.
Variable sc_array_memory_used : list Z → bool → Z.

(** Arithmetic in [size_t]. *)
Definition size_t (x : Z) : Z := x mod 2 ^ 64.

(** Body of the loop over the levels. *)
Definition level_memory (ll : level_lists_t) (mem_levels lvl : Z)
  : option Z :=
  q ← load (virtual_qlevels ll) lvl;
  let mem_levels := size_t (mem_levels + sc_array_memory_used q false) in
  g ← load (virtual_glevels ll) lvl;
  Some (size_t (mem_levels + sc_array_memory_used g false)).

Definition p4est_virtual_memory_used (virtual_quads : p4est_virtual_t)
  : option Z :=
  let lqz := size_t (local_num_quadrants virtual_quads) in
  let ngz := size_t (ghost_num_quadrants virtual_quads) in
  let mem_flags := size_t (size_t (lqz + ngz) * sizeof_locidx) in
  '(mem_offset, mem_levels) ←
     match level_lists virtual_quads with
     | Some ll =>
         let mem_offset :=
           size_t (size_t (2 * size_t (lqz + ngz)) * sizeof_locidx) in
         let mem_levels :=
           size_t (size_t (2 * sizeof_sc_array)
                   * size_t (P4EST_QMAXLEVEL + 1)) in
         mem_levels ← foldM (level_memory ll)
                        (seqZ 0 (P4EST_QMAXLEVEL + 1)) mem_levels;
         Some (mem_offset, mem_levels)
     | None => Some (0, 0)
     end;
  Some (size_t (size_t (size_t (mem_flags + mem_offset) + mem_levels)
                + sizeof_virtual)).

(** The same total in the words of the specification: the bytes of every
    array the structure owns, the header and the body of every level
    list, and the structure itself. *)
Definition Zsum (l : list Z) : Z := foldr Z.add 0 l.

Definition array_bytes (a : list Z) : Z :=
  Z.of_nat (length a) * sizeof_locidx.

Definition level_lists_bytes (lists : list (list Z)) : Z :=
  Zsum (map (λ l, sizeof_sc_array + sc_array_memory_used l false) lists).

Definition owned_bytes (virtual_quads : p4est_virtual_t) : Z :=
  array_bytes (virtual_qflags virtual_quads)
  + array_bytes (virtual_gflags virtual_quads)
  + match level_lists virtual_quads with
    | Some ll =>
        array_bytes (quad_qreal_offset ll)
        + array_bytes (quad_qvirtual_offset ll)
        + array_bytes (quad_greal_offset ll)
        + array_bytes (quad_gvirtual_offset ll)
        + level_lists_bytes (virtual_qlevels ll)
        + level_lists_bytes (virtual_glevels ll)
    | None => 0
    end
  + sizeof_virtual.

(** Equality of two byte counts as [size_t] values. *)
Definition same_size (a b : Z) : Prop := size_t a = size_t b.

End Memory.

(** The store of the ghost branch of boundary mode, on its own. *)
Definition mark_ghost (gflags : list Z) (i : Z) : option (list Z) :=
  store gflags i 1.

(** ** What the constructor computes, in closed form

    The definitions below follow the words of the specification: hosts,
    per-level counts, offsets and level lists as functions of the mesh.
    The theorems relate them to the arrays the code fills. *)

Section ClosedForm.

Variable p4est : p4est_t.
Variable ghost : p4est_ghost_t.
Variable mesh : p4est_mesh_t.
Variable bt : p4est_connect_type_t.
Variable compute_level_lists : bool.

Definition quadrant_level (q : Z) : Z :=
  from_option level 0 (load (quadrants p4est) q).

Definition ghost_level (g : Z) : Z :=
  from_option level 0 (load (ghosts ghost) g).

Definition directions : Z := default 0 (direction_count bt).

Definition is_finer (lvl : Z) (nb : mesh_neighbor) : bool :=
  lvl <? level (nb_quad nb).

(** Some neighbor in the directions of [bt] is strictly finer. *)
Definition has_finer_neighbor (q : Z) : bool :=
  existsb (λ dir, existsb (is_finer (quadrant_level q))
                    (mesh_neighbors mesh q dir))
          (seqZ 0 directions).

(** The neighbors for which boundary mode writes a ghost flag. *)
Definition coarser_ghost (lq gq lvl : Z) (nb : mesh_neighbor) : bool :=
  negb (is_finer lvl nb) && ghost_check lq gq (nb_qid nb)
  && (level (nb_quad nb) <? lvl).

Definition ghost_hits_of (lq gq lvl : Z) (nbs : list mesh_neighbor) : list Z :=
  map (λ nb, nb_qid nb - lq) (List.filter (coarser_ghost lq gq lvl) nbs).

Definition ghost_hits (q : Z) : list Z :=
  flat_map (λ dir, ghost_hits_of (mesh_local_num_quadrants mesh)
                     (mesh_ghost_num_quadrants mesh) (quadrant_level q)
                     (mesh_neighbors mesh q dir))
           (seqZ 0 directions).

Definition boundary_routed (q : Z) : bool :=
  match parallel_boundary mesh with
  | Some pb => negb (from_option (λ b, b =? -1) false (load pb q))
  | None => true
  end.

(** Ghost [g] was marked while the quadrants below [k] were classified. *)
Definition marks (k g : Z) : bool :=
  existsb (λ q, boundary_routed q && existsb (Z.eqb g) (ghost_hits q))
          (seqZ 0 k).

(** Per-level counters and the offsets derived from them, for a side with
    host test [hostp] and level function [lev]. *)
Definition real_count (lev : Z → Z) (l k : Z) : Z :=
  count (λ q, lev q =? l) k.

Definition virt_count (hostp : Z → bool) (lev : Z → Z) (l k : Z) : Z :=
  count (λ q, hostp q && (lev q + 1 =? l)) k.

Definition real_offset (hostp : Z → bool) (lev : Z → Z) (k q : Z) : Z :=
  if q <? k
  then real_count lev (lev q) q + P4EST_CHILDREN * virt_count hostp lev (lev q) q
  else -1.

Definition virtual_offset (hostp : Z → bool) (lev : Z → Z) (k q : Z) : Z :=
  if (q <? k) && hostp q
  then real_count lev (lev q + 1) q
       + P4EST_CHILDREN * virt_count hostp lev (lev q + 1) q
  else -1.

Definition level_list (hostp : Z → bool) (lev : Z → Z) (k l : Z) : list Z :=
  List.filter (λ q, hostp q && (lev q + 1 =? l)) (seqZ 0 k).

(** Tokens of the owned side: the number of hosts seen before. *)
Definition qflag_at (k q : Z) : Z :=
  if (q <? k) && has_finer_neighbor q then count has_finer_neighbor q else -1.

Definition gmark_at (k g : Z) : Z := if marks k g then 1 else -1.

(** Ghost flags while pass 2 has renumbered the ghosts below [k]. *)
Definition marked (g : Z) : bool := marks (mesh_local_num_quadrants mesh) g.

Definition gflag_at (k g : Z) : Z :=
  if marked g then (if g <? k then count marked g else 1) else -1.

(** State of pass 1 before quadrant [k], ghost flags [gflags]; state of
    pass 2 before ghost [k]. *)
Definition pass1_state (gflags : list Z) (k : Z) : pass_state :=
  let lq := mesh_local_num_quadrants mesh in
  let gq := mesh_ghost_num_quadrants mesh in
  let nlev := P4EST_QMAXLEVEL + 1 in
  {| st_virtual :=
       {| btype := bt; local_num_quadrants := lq; ghost_num_quadrants := gq;
          virtual_qflags := tab (qflag_at k) lq;
          virtual_gflags := gflags;
          level_lists :=
            if compute_level_lists then
              Some {| quad_qreal_offset :=
                        tab (real_offset has_finer_neighbor quadrant_level k) lq;
                      quad_qvirtual_offset :=
                        tab (virtual_offset has_finer_neighbor quadrant_level k) lq;
                      quad_greal_offset := tab (λ _, -1) gq;
                      quad_gvirtual_offset := tab (λ _, -1) gq;
                      virtual_qlevels :=
                        tab (level_list has_finer_neighbor quadrant_level k) nlev;
                      virtual_glevels := tab (λ _, []) nlev |}
            else None |};
     st_real := if compute_level_lists
                then tab (λ l, real_count quadrant_level l k) nlev
                else tab (λ _, 0) nlev;
     st_virt := if compute_level_lists
                then tab (λ l, virt_count has_finer_neighbor quadrant_level l k) nlev
                else tab (λ _, 0) nlev;
     st_last := count has_finer_neighbor k - 1 |}.

Definition pass2_state (k : Z) : pass_state :=
  let lq := mesh_local_num_quadrants mesh in
  let gq := mesh_ghost_num_quadrants mesh in
  let nlev := P4EST_QMAXLEVEL + 1 in
  {| st_virtual :=
       {| btype := bt; local_num_quadrants := lq; ghost_num_quadrants := gq;
          virtual_qflags := tab (qflag_at lq) lq;
          virtual_gflags := tab (gflag_at k) gq;
          level_lists :=
            if compute_level_lists then
              Some {| quad_qreal_offset :=
                        tab (real_offset has_finer_neighbor quadrant_level lq) lq;
                      quad_qvirtual_offset :=
                        tab (virtual_offset has_finer_neighbor quadrant_level lq) lq;
                      quad_greal_offset :=
                        tab (real_offset marked ghost_level k) gq;
                      quad_gvirtual_offset :=
                        tab (virtual_offset marked ghost_level k) gq;
                      virtual_qlevels :=
                        tab (level_list has_finer_neighbor quadrant_level lq) nlev;
                      virtual_glevels :=
                        tab (level_list marked ghost_level k) nlev |}
            else None |};
     st_real := if compute_level_lists
                then tab (λ l, real_count ghost_level l k) nlev
                else tab (λ _, 0) nlev;
     st_virt := if compute_level_lists
                then tab (λ l, virt_count marked ghost_level l k) nlev
                else tab (λ _, 0) nlev;
     st_last := count marked k |}.

(** Entry [i] of a flag array exists and is not negative. *)
Definition flag_set (flags : list Z) (i : Z) : bool :=
  from_option (Z.leb 0) false (load flags i).

(** The same mesh without a [parallel_boundary] array: every quadrant is
    then classified in boundary mode. *)
Definition without_parallel_boundary : p4est_mesh_t :=
  {| mesh_local_num_quadrants := mesh_local_num_quadrants mesh;
     mesh_ghost_num_quadrants := mesh_ghost_num_quadrants mesh;
     parallel_boundary := None;
     mirror_qid := mirror_qid mesh;
     ghost_to_proc := ghost_to_proc mesh;
     mesh_neighbors := mesh_neighbors mesh |}.

(** The structure the constructor returns. *)
Definition built : p4est_virtual_t :=
  st_virtual (pass2_state (mesh_ghost_num_quadrants mesh)).

(** The mesh contract the constructor relies on: counts match the arrays,
    levels lie in [0, P4EST_QMAXLEVEL], the connection type exists in this
    build, and every neighbor carries an id in [0, L+G) and the level of
    the element it names. *)
Definition level_ok (lvl : Z) : bool :=
  (0 <=? lvl) && (lvl <=? P4EST_QMAXLEVEL).

Definition neighbor_ok (nb : mesh_neighbor) : bool :=
  let lq := mesh_local_num_quadrants mesh in
  let gq := mesh_ghost_num_quadrants mesh in
  (0 <=? nb_qid nb) && (nb_qid nb <? lq + gq)
  && (level (nb_quad nb) =?
        if nb_qid nb <? lq then quadrant_level (nb_qid nb)
        else ghost_level (nb_qid nb - lq)).

Definition mesh_ok : bool :=
  let lq := mesh_local_num_quadrants mesh in
  let gq := mesh_ghost_num_quadrants mesh in
  (0 <=? lq) && (0 <=? gq)
  && (Z.of_nat (length (quadrants p4est)) =? lq)
  && (Z.of_nat (length (ghosts ghost)) =? gq)
  && forallb (λ q, level_ok (quadrant_level q)) (seqZ 0 lq)
  && forallb (λ g, level_ok (ghost_level g)) (seqZ 0 gq)
  && match direction_count bt with Some _ => true | None => false end
  && match parallel_boundary mesh with
     | Some pb => Z.of_nat (length pb) =? lq
     | None => true
     end
  && forallb (λ q, forallb (λ dir, forallb neighbor_ok (mesh_neighbors mesh q dir))
                     (seqZ 0 directions))
             (seqZ 0 lq).

(** Quadrants classified in interior mode do not border coarser ghosts. *)
Definition interior_ok : bool :=
  forallb (λ q, boundary_routed q
                || match ghost_hits q with [] => true | _ => false end)
          (seqZ 0 (mesh_local_num_quadrants mesh)).

End ClosedForm.

(** ** What the mirror resolver computes, in closed form *)

Section ResolverForm.

Variable ghost : p4est_ghost_t.
Variable mesh : p4est_mesh_t.
Variable virtual_quads : p4est_virtual_t.
Variable bt : p4est_connect_type_t.

(** Neighbor [nb] is a ghost owned by [proc] with a negative encoding. *)
Definition remote_half_size (proc : Z) (nb : mesh_neighbor) : bool :=
  let lq := mesh_local_num_quadrants mesh in
  let gq := mesh_ghost_num_quadrants mesh in
  (lq <=? nb_qid nb) && (nb_qid nb <? lq + gq)
  && from_option (λ owner, owner =? proc) false
       (load (ghost_to_proc mesh) (nb_qid nb - lq))
  && (nb_enc nb <? 0).

Definition mirror_of (s : Z) : Z := default 0 (load (mirror_qid mesh) s).

Definition mirror_flag (s : Z) : Z :=
  default 0 (load (virtual_qflags virtual_quads) (mirror_of s)).

(** The resolver writes a 1 into slot [s] while it serves [proc]: the
    flag of the mirror is not 0 and some neighbor is as above. *)
Definition slot_fires (proc s : Z) : bool :=
  negb (mirror_flag s =? 0)
  && existsb (λ dir, existsb (remote_half_size proc)
                       (mesh_neighbors mesh (mirror_of s) dir))
             (seqZ 0 (directions bt)).

Definition offset_of (proc : Z) : Z :=
  default 0 (load (mirror_proc_offsets ghost) proc).

(** Slot [s] is among the mirrors sent to [proc]. *)
Definition slot_of (proc s : Z) : bool :=
  (offset_of proc <=? s) && (s <? offset_of (proc + 1)).

(** The array after the ranks below [k] have been served. *)
Definition resolved (k s : Z) : Z :=
  if existsb (λ proc, slot_of proc s && slot_fires proc s) (seqZ 0 k)
  then 1 else 0.

(** What the resolver needs from its inputs: the connection type exists
    in this build; the offsets are given for every rank, start at a
    nonnegative value and do not decrease; every slot names an owned
    quadrant that has a flag; every ghost has an owner. *)
Definition resolver_ok (nranks : Z) : bool :=
  let lq := mesh_local_num_quadrants mesh in
  let gq := mesh_ghost_num_quadrants mesh in
  let mirrors := offset_of nranks in
  match direction_count bt with Some _ => true | None => false end
  && (0 <=? nranks)
  && (nranks <? Z.of_nat (length (mirror_proc_offsets ghost)))
  && (0 <=? offset_of 0)
  && forallb (λ proc, offset_of proc <=? offset_of (proc + 1))
       (seqZ 0 nranks)
  && (mirrors <=? Z.of_nat (length (mirror_qid mesh)))
  && forallb (λ s, (0 <=? mirror_of s)
                   && (mirror_of s
                         <? Z.of_nat (length (virtual_qflags virtual_quads))))
       (seqZ 0 mirrors)
  && (gq <=? Z.of_nat (length (ghost_to_proc mesh))).

End ResolverForm.

End Virtual.

(** ** A two-rank fixture

    One owned quadrant of level 1 whose face 0 touches two quadrants of
    level 2 owned by rank 1; the owned quadrant is the only mirror. *)
Module Seam.

Definition fine : p4est_quadrant_t := {| level := 2 |}.

Definition p4est : p4est_t :=
  {| mpisize := 2; quadrants := [ {| level := 1 |} ] |}.

Definition ghost : p4est_ghost_t :=
  {| ghosts := [fine; fine]; mirror_proc_offsets := [0; 0; 1] |}.

Definition neighbors (qid dir : Z) : list mesh_neighbor :=
  if (qid =? 0) && (dir =? 0)
  then [ {| nb_quad := fine; nb_enc := -1; nb_qid := 1 |};
         {| nb_quad := fine; nb_enc := -2; nb_qid := 2 |} ]
  else [].

Definition mesh : p4est_mesh_t :=
  {| mesh_local_num_quadrants := 1; mesh_ghost_num_quadrants := 2;
     parallel_boundary := Some [0];
     mirror_qid := [0]; ghost_to_proc := [1; 1];
     mesh_neighbors := neighbors |}.

(** A structure for this mesh whose only quadrant hosts virtuals, with a
    chosen token. *)
Definition hosted (token : Z) : p4est_virtual_t :=
  {| btype := P4EST_CONNECT_FACE;
     local_num_quadrants := 1; ghost_num_quadrants := 2;
     virtual_qflags := [token]; virtual_gflags := [-1; -1];
     level_lists := None |}.

End Seam.

(** ** A fixture with both modes

    Four owned quadrants and two ghosts.  Quadrant 0 (level 1) sees the
    finer quadrants 1 and 2 and is classified in interior mode; quadrant 1
    (level 2) borders the coarser ghost 0; quadrant 3 (level 1) borders
    the finer ghost 1.  Quadrants 1 and 3 are mirrors for rank 1. *)
Module Mixed.

Definition coarse : p4est_quadrant_t := {| level := 1 |}.
Definition fine : p4est_quadrant_t := {| level := 2 |}.

Definition p4est : p4est_t :=
  {| mpisize := 2; quadrants := [coarse; fine; fine; coarse] |}.

Definition ghost : p4est_ghost_t :=
  {| ghosts := [coarse; fine]; mirror_proc_offsets := [0; 0; 2] |}.

Definition neighbors (qid dir : Z) : list mesh_neighbor :=
  match qid, dir with
  | 0, 1 => [ {| nb_quad := fine; nb_enc := -1; nb_qid := 1 |};
              {| nb_quad := fine; nb_enc := -2; nb_qid := 2 |} ]
  | 1, 0 => [ {| nb_quad := coarse; nb_enc := 9; nb_qid := 0 |} ]
  | 1, 2 => [ {| nb_quad := coarse; nb_enc := 12; nb_qid := 4 |} ]
  | 2, 0 => [ {| nb_quad := coarse; nb_enc := 13; nb_qid := 0 |} ]
  | 3, 1 => [ {| nb_quad := fine; nb_enc := -1; nb_qid := 5 |} ]
  | _, _ => []
  end.

Definition mesh : p4est_mesh_t :=
  {| mesh_local_num_quadrants := 4; mesh_ghost_num_quadrants := 2;
     parallel_boundary := Some [-1; 3; -1; 0];
     mirror_qid := [1; 3]; ghost_to_proc := [1; 1];
     mesh_neighbors := neighbors |}.

(** A stand-in for libsc's report of the bytes of a list body. *)
Definition sc_bytes (l : list Z) (dyn : bool) : Z :=
  (if dyn then 32 else 0) + 4 * Z.of_nat (length l).

End Mixed.


(** ** A rank without quadrants

    A rank that owns nothing and still sees the two ghosts of the mixed
    fixture. *)
Module Idle.

Definition p4est : p4est_t := {| mpisize := 2; quadrants := [] |}.

Definition mesh : p4est_mesh_t :=
  {| mesh_local_num_quadrants := 0; mesh_ghost_num_quadrants := 2;
     parallel_boundary := None; mirror_qid := []; ghost_to_proc := [1; 1];
     mesh_neighbors := λ _ _, [] |}.

End Idle.

(** ** Neighbor tables of the virtual children

    The two constant tables of the 2D build, indexed by the child and by
    the face or the corner. *)
Definition p4est_face_virtual_neighbors_inside : list (list Z) :=
  [ [ 4;  1;  6;  2];
    [ 0;  5; 10;  3];
    [ 8;  3;  0;  7];
    [ 2;  9;  1; 11] ].

Definition p4est_corner_virtual_neighbors_inside : list (list Z) :=
  [ [12; 10;  8;  3];
    [ 6; 13;  2;  9];
    [ 4;  1; 14; 11];
    [ 0;  5;  7; 15] ].

(** [t[i][j]]. *)
Definition table_entry (t : list (list Z)) (i j : Z) : option Z :=
  row ← load t i; load row j.

(** Bit [a] of a child or corner number: its side along axis [a]. *)
Definition side_bit (c a : Z) : Z := Z.land (Z.shiftr c a) 1.

(** ** The refinement callback of the quadrant test

    [refine_fn] of [test/test_quadrants.c] reads the x coordinate and the
    level of the quadrant; [P4EST_MAXLEVEL] comes from the headers. *)
Definition refine_fn (P4EST_MAXLEVEL : Z) (q_x q_level : Z) : Z :=
  if q_x <? Z.shiftl 1 (P4EST_MAXLEVEL - 2) then
    (if q_level <=? 4 then 1 else 0)
  else if q_x <? Z.shiftl 1 (P4EST_MAXLEVEL - 1) then
    (if q_level <=? 3 then 1 else 0)
  else
    (if q_level <=? 2 then 1 else 0).

(** ** Further notions used to state properties *)

(** A pass state with the ghost flags replaced. *)
Definition with_gflags (st : pass_state) (gflags : list Z) : pass_state :=
  {| st_virtual := set_gflags (st_virtual st) gflags;
     st_real := st_real st; st_virt := st_virt st; st_last := st_last st |}.

(** The meaning the resolver gives to encodings: in the directions it
    scans, a neighbor with a negative encoding is strictly finer than the
    quadrant it was asked for. *)
Definition encoding_ok (P4_TO_P8 : bool) (p4est : p4est_t)
  (mesh : p4est_mesh_t) (bt : p4est_connect_type_t) : bool :=
  forallb (λ q,
    forallb (λ dir,
      forallb (λ nb, negb (nb_enc nb <? 0)
                     || (quadrant_level p4est q <? level (nb_quad nb)))
              (mesh_neighbors mesh q dir))
      (seqZ 0 (directions P4_TO_P8 bt)))
    (seqZ 0 (mesh_local_num_quadrants mesh)).

(** ** The offset formula in the words of the specification

    P4 of the specification counts, for the virtual part of
    [qreal_offset[q]], the earlier owned quadrants [q'] with
    [level(q') = level(q)], with a flag that is set, and with a virtual
    level equal to [level(q)].  The specification does not say how the
    virtual level of a host is read; it is the argument [vlevel]. *)
Definition P4_virtual_count (hostp : Z → bool) (lev vlevel : Z → Z)
  (q : Z) : Z :=
  count (λ q', (lev q' =? lev q) && hostp q' && (vlevel q' =? lev q)) q.

Definition P4_real_offset (P4_TO_P8 : bool) (hostp : Z → bool)
  (lev vlevel : Z → Z) (q : Z) : Z :=
  count (λ q', lev q' =? lev q) q
  + P4EST_CHILDREN P4_TO_P8 * P4_virtual_count hostp lev vlevel q.

(** P4 for the owned side of a structure with level lists. *)
Definition P4_offset_formula (P4_TO_P8 : bool) (p4est : p4est_t)
  (vq : p4est_virtual_t) (vlevel : Z → Z) : Prop :=
  ∃ ll,
    level_lists vq = Some ll
    ∧ ∀ q, 0 ≤ q < local_num_quadrants vq →
        load (quad_qreal_offset ll) q
        = Some (P4_real_offset P4_TO_P8 (flag_set (virtual_qflags vq))
                  (quadrant_level p4est) vlevel q).

(** * Proofs *)

(** ** Arrays and loops *)

Section Arrays.

Context {A : Type}.
Implicit Types (f g : Z → A) (a : list A).

Lemma length_tab f n : length (tab f n) = Z.to_nat n.
Proof. unfold tab. by rewrite length_fmap, length_seqZ. Qed.

Lemma lookup_tab f n (i : nat) :
  Z.of_nat i < n → tab f n !! i = Some (f (Z.of_nat i)).
Proof.
  intros Hi. unfold tab. rewrite list_lookup_fmap.
  rewrite lookup_seqZ_lt by done. simpl. by rewrite Z.add_0_l.
Qed.

Lemma load_tab f n i : 0 ≤ i < n → load (tab f n) i = Some (f i).
Proof.
  intros [H0 Hn]. unfold load.
  destruct (Z.leb_spec 0 i); [|lia].
  rewrite lookup_tab by lia. by rewrite Z2Nat.id.
Qed.

Lemma tab_ext f g n : (∀ i, 0 ≤ i < n → f i = g i) → tab f n = tab g n.
Proof.
  intros Hfg. unfold tab. apply list_fmap_ext.
  intros i x Hx. apply lookup_seqZ in Hx. apply Hfg. lia.
Qed.

Lemma store_tab f n i v :
  0 ≤ i < n →
  store (tab f n) i v = Some (tab (λ j, if j =? i then v else f j) n).
Proof.
  intros [H0 Hn]. unfold store. rewrite length_tab.
  destruct (Z.leb_spec 0 i); [|lia].
  destruct (Z.ltb_spec i (Z.of_nat (Z.to_nat n))); [|lia].
  simpl. f_equal. apply list_eq. intros j.
  destruct (decide (j < Z.to_nat n)%nat) as [Hj|Hj].
  - rewrite (lookup_tab _ n j) by lia.
    destruct (decide (Z.to_nat i = j)) as [<-|Hne].
    + rewrite list_lookup_insert_eq by (rewrite length_tab; lia).
      rewrite Z2Nat.id by lia. by rewrite Z.eqb_refl.
    + rewrite list_lookup_insert_ne by done.
      rewrite lookup_tab by lia.
      destruct (Z.eqb_spec (Z.of_nat j) i); [lia|done].
  - rewrite !(proj2 (lookup_ge_None _ _)); [done| |].
    + rewrite length_tab. lia.
    + rewrite length_insert, length_tab. lia.
Qed.

Lemma alloc_filled_tab n (x : A) : alloc_filled n x = tab (λ _, x) n.
Proof.
  unfold alloc_filled, tab. apply list_eq. intros i.
  destruct (decide (i < Z.to_nat n)%nat) as [Hi|Hi].
  - rewrite lookup_replicate_2 by done.
    rewrite list_lookup_fmap, lookup_seqZ_lt by lia. done.
  - rewrite !(proj2 (lookup_ge_None _ _)); [done| |].
    + rewrite length_fmap, length_seqZ. lia.
    + rewrite length_replicate. lia.
Qed.

Lemma store_length a i v a' : store a i v = Some a' → length a' = length a.
Proof.
  unfold store. destruct (_ && _); [|done].
  intros [= <-]. apply length_insert.
Qed.

Lemma store_is_Some a i v :
  0 ≤ i < Z.of_nat (length a) → is_Some (store a i v).
Proof.
  intros [H0 Hn]. unfold store.
  destruct (Z.leb_spec 0 i); [|lia].
  destruct (Z.ltb_spec i (Z.of_nat (length a))); [|lia]. by eexists.
Qed.

Lemma store_Some_inv a i v a' :
  store a i v = Some a' → 0 ≤ i < Z.of_nat (length a).
Proof.
  unfold store.
  destruct (Z.leb_spec 0 i); destruct (Z.ltb_spec i (Z.of_nat (length a)));
    simpl; intros; simplify_eq; lia.
Qed.

Lemma load_is_Some a i : 0 ≤ i < Z.of_nat (length a) → is_Some (load a i).
Proof.
  intros [H0 Hn]. unfold load. destruct (Z.leb_spec 0 i); [|lia].
  apply lookup_lt_is_Some. lia.
Qed.

End Arrays.

Section Loops.

Context {S A : Type}.
Implicit Types (body : S → A → option S).

Lemma foldM_app body l1 l2 s :
  foldM body (l1 ++ l2) s = s' ← foldM body l1 s; foldM body l2 s'.
Proof.
  revert s. induction l1 as [|x l1 IH]; intros s; simpl; [done|].
  destruct (body s x); simpl; [apply IH|done].
Qed.

End Loops.

Lemma seqZ_succ k : 0 ≤ k → seqZ 0 (k + 1) = seqZ 0 k ++ [k].
Proof.
  intros Hk. rewrite <- (Z2Nat.id k) at 1 3 by done.
  replace (Z.of_nat (Z.to_nat k) + 1)
    with (Z.of_nat (Datatypes.S (Z.to_nat k))) by lia.
  rewrite seqZ_S. do 2 f_equal. lia.
Qed.

(** A counting loop whose state before iteration [k] is [st k]. *)
Lemma foldM_closed {S} (body : S → Z → option S) (st : Z → S) n :
  0 ≤ n →
  (∀ k, 0 ≤ k < n → body (st k) k = Some (st (k + 1))) →
  foldM body (seqZ 0 n) (st 0) = Some (st n).
Proof.
  intros Hn Hstep. rewrite <- (Z2Nat.id n) in * by done.
  induction (Z.to_nat n) as [|m IH]; [done|].
  rewrite seqZ_S, foldM_app, IH; [|lia|intros; apply Hstep; lia].
  simpl. rewrite Hstep by lia. simpl. f_equal. f_equal. lia.
Qed.

Lemma count_succ P k :
  0 ≤ k → count P (k + 1) = count P k + (if P k then 1 else 0).
Proof.
  intros Hk. unfold count.
  rewrite seqZ_succ, List.filter_app, length_app by done. simpl.
  destruct (P k); simpl; lia.
Qed.

Lemma count_nonneg P k : 0 ≤ count P k.
Proof. unfold count. lia. Qed.

Lemma count_le P k : 0 ≤ k → count P k ≤ k.
Proof.
  intros Hk. unfold count.
  pose proof (List.filter_length_le P (seqZ 0 k)) as H.
  rewrite length_seqZ in H. lia.
Qed.

Lemma count_ext P Q k :
  (∀ i, 0 ≤ i < k → P i = Q i) → count P k = count Q k.
Proof.
  intros H. unfold count. f_equal. f_equal.
  apply List.filter_ext_in. intros i Hi.
  apply list_elem_of_In, elem_of_seqZ in Hi. apply H. lia.
Qed.

Lemma filter_seqZ_succ (P : Z → bool) k :
  0 ≤ k →
  List.filter P (seqZ 0 (k + 1))
  = List.filter P (seqZ 0 k) ++ (if P k then [k] else []).
Proof.
  intros Hk. rewrite seqZ_succ, List.filter_app by done. simpl.
  by destruct (P k).
Qed.

Lemma filter_none {A} (P : A → bool) (l : list A) :
  (∀ x, x ∈ l → P x = false) → List.filter P l = [].
Proof.
  induction l as [|x l IH]; intros H; simpl; [done|].
  rewrite H by apply list_elem_of_here.
  apply IH. intros y Hy. apply H. by apply list_elem_of_further.
Qed.

(** ** The two scans *)

Section Scans.

Variable p4est : p4est_t.
Variable ghost : p4est_ghost_t.
Variable mesh : p4est_mesh_t.

Lemma finer_neighbor_existsb lvl nbs :
  finer_neighbor lvl nbs = existsb (is_finer lvl) nbs.
Proof.
  induction nbs as [|nb nbs IH]; simpl; [done|].
  unfold is_finer at 1. by destruct (lvl <? level (nb_quad nb)).
Qed.

(** Interior mode stops early, yet it computes the full disjunction. *)
Lemma inner_directions_existsb qid lvl dirs :
  inner_directions p4est ghost mesh qid lvl dirs
  = existsb (λ dir, existsb (is_finer lvl) (mesh_neighbors mesh qid dir)) dirs.
Proof.
  induction dirs as [|i dirs IH]; simpl; [done|].
  rewrite finer_neighbor_existsb. unfold p4est_mesh_get_neighbors.
  by destruct (existsb _ (mesh_neighbors mesh qid i)).
Qed.

Lemma boundary_neighbors_spec lq gq lvl nbs hv gf :
  boundary_neighbors lq gq lvl nbs (hv, gf)
  = gf' ← foldM mark_ghost (ghost_hits_of lq gq lvl nbs) gf;
    Some (hv || existsb (is_finer lvl) nbs, gf').
Proof.
  revert hv gf. induction nbs as [|nb nbs IH]; intros hv gf; simpl.
  - by rewrite orb_false_r.
  - unfold ghost_hits_of. simpl. unfold coarser_ghost at 1, is_finer at 1 3.
    destruct (lvl <? level (nb_quad nb)); simpl.
    + rewrite IH. unfold ghost_hits_of. by rewrite orb_true_r.
    + destruct (ghost_check lq gq (nb_qid nb) && (level (nb_quad nb) <? lvl));
        simpl.
      * unfold mark_ghost at 2.
        destruct (store gf (nb_qid nb - lq) 1) as [gf1|]; simpl; [|done].
        apply IH.
      * apply IH.
Qed.

Lemma boundary_directions_spec lq gq qid lvl dirs hv gf :
  boundary_directions p4est ghost mesh lq gq qid lvl dirs (hv, gf)
  = gf' ← foldM mark_ghost
            (flat_map (λ dir, ghost_hits_of lq gq lvl
                                (mesh_neighbors mesh qid dir)) dirs) gf;
    Some (hv || existsb (λ dir, existsb (is_finer lvl)
                                  (mesh_neighbors mesh qid dir)) dirs, gf').
Proof.
  revert hv gf. induction dirs as [|i dirs IH]; intros hv gf; simpl.
  - by rewrite orb_false_r.
  - unfold p4est_mesh_get_neighbors. rewrite boundary_neighbors_spec.
    rewrite foldM_app.
    destruct (foldM mark_ghost _ gf) as [gf1|]; simpl; [|done].
    rewrite IH. by rewrite orb_assoc.
Qed.

(** Marking a list of in-range ghosts sets exactly their flags. *)
Lemma mark_tab (f : Z → Z) n hits :
  Forall (λ i, 0 ≤ i < n) hits →
  foldM mark_ghost hits (tab f n)
  = Some (tab (λ j, if existsb (Z.eqb j) hits then 1 else f j) n).
Proof.
  revert f. induction hits as [|i hits IH]; intros f Hall; simpl.
  - done.
  - apply Forall_cons in Hall as [Hi Hall].
    change (mark_ghost (tab f n) i) with (store (tab f n) i 1).
    rewrite store_tab by done. simpl.
    rewrite IH by done. f_equal. apply tab_ext. intros j _.
    destruct (Z.eqb_spec j i); simpl; [|done].
    by destruct (existsb _ hits).
Qed.

(** An out-of-range hit makes the scan fail: the model sees the store. *)
Lemma mark_out_of_range (gf : list Z) hits :
  is_Some (foldM mark_ghost hits gf) →
  Forall (λ i, 0 ≤ i < Z.of_nat (length gf)) hits.
Proof.
  revert gf. induction hits as [|i hits IH]; intros gf [gf' H]; simpl in *.
  - constructor.
  - change (mark_ghost gf i) with (store gf i 1) in H.
    destruct (store gf i 1) as [gf1|] eqn:E; simpl in H; [|done].
    constructor.
    + by apply store_Some_inv in E.
    + rewrite <- (store_length _ _ _ _ E). apply IH. by eexists.
Qed.

End Scans.

Lemma existsb_seqZ_succ (P : Z → bool) k :
  0 ≤ k → existsb P (seqZ 0 (k + 1)) = existsb P (seqZ 0 k) || P k.
Proof.
  intros Hk. rewrite seqZ_succ, existsb_app by done. simpl.
  by rewrite orb_false_r.
Qed.

Lemma existsb_elem_of {A} (P : A → bool) (l : list A) :
  existsb P l = true ↔ ∃ x, x ∈ l ∧ P x = true.
Proof.
  rewrite existsb_exists. split; intros (x & Hx & HP); exists x;
    split; try done; by apply list_elem_of_In.
Qed.

Lemma forallb_elem_of {A} (P : A → bool) (l : list A) :
  forallb P l = true ↔ ∀ x, x ∈ l → P x = true.
Proof.
  rewrite forallb_forall. split; intros H x Hx; apply H;
    by apply list_elem_of_In.
Qed.

Lemma pass_state_eq v v' r r' t t' l l' :
  v = v' → r = r' → t = t' → l = l' →
  Build_pass_state v r t l = Build_pass_state v' r' t' l'.
Proof. by intros -> -> -> ->. Qed.

Lemma virtual_eq b lq gq qf qf' gf gf' ll ll' :
  qf = qf' → gf = gf' → ll = ll' →
  Build_p4est_virtual_t b lq gq qf gf ll
  = Build_p4est_virtual_t b lq gq qf' gf' ll'.
Proof. by intros -> -> ->. Qed.

Lemma level_lists_eq a1 a1' a2 a2' a3 a3' a4 a4' a5 a5' a6 a6' :
  a1 = a1' → a2 = a2' → a3 = a3' → a4 = a4' → a5 = a5' → a6 = a6' →
  Build_level_lists_t a1 a2 a3 a4 a5 a6
  = Build_level_lists_t a1' a2' a3' a4' a5' a6'.
Proof. by intros -> -> -> -> -> ->. Qed.

Ltac fields :=
  repeat first
    [ apply (f_equal (@Some pass_state))
    | apply (f_equal (@Some p4est_virtual_t))
    | apply (f_equal (@Some level_lists_t))
    | apply pass_state_eq
    | apply virtual_eq
    | apply level_lists_eq ];
  try reflexivity.

Ltac split_tests :=
  repeat match goal with
    | |- context [ ?a =? ?b ] => destruct (Z.eqb_spec a b); try lia
    | |- context [ ?a <? ?b ] => destruct (Z.ltb_spec a b); try lia
    | |- context [ ?a <=? ?b ] => destruct (Z.leb_spec a b); try lia
    end.

(** ** The constructor, pass by pass *)

Section Construction.

Variable P4_TO_P8 : bool.
Variable QMAX : Z.
Variable p4est : p4est_t.
Variable ghost : p4est_ghost_t.
Variable mesh : p4est_mesh_t.
Variable bt : p4est_connect_type_t.
Variable cl : bool.

Local Abbreviation L := (mesh_local_num_quadrants mesh).
Local Abbreviation G := (mesh_ghost_num_quadrants mesh).
Local Abbreviation CH := (P4EST_CHILDREN P4_TO_P8).
Local Abbreviation qlev := (quadrant_level p4est).
Local Abbreviation glev := (ghost_level ghost).
Local Abbreviation imax := (directions P4_TO_P8 bt).
Local Abbreviation host := (has_finer_neighbor P4_TO_P8 p4est mesh bt).
Local Abbreviation hits := (ghost_hits P4_TO_P8 p4est mesh bt).
Local Abbreviation routed := (boundary_routed mesh).
Local Abbreviation marks_upto := (marks P4_TO_P8 p4est mesh bt).
Local Abbreviation is_marked := (marked P4_TO_P8 p4est mesh bt).
Local Abbreviation state1 := (pass1_state P4_TO_P8 QMAX p4est mesh bt cl).
Local Abbreviation state2 := (pass2_state P4_TO_P8 QMAX p4est ghost mesh bt cl).
Local Abbreviation result := (built P4_TO_P8 QMAX p4est ghost mesh bt cl).

Hypothesis Hok : mesh_ok P4_TO_P8 QMAX p4est ghost mesh bt = true.

Lemma ok_counts :
  0 ≤ L ∧ 0 ≤ G
  ∧ Z.of_nat (length (quadrants p4est)) = L
  ∧ Z.of_nat (length (ghosts ghost)) = G.
Proof.
  unfold mesh_ok in Hok. rewrite !andb_true_iff in Hok.
  destruct Hok as ((((((((? & ?) & ?) & ?) & _) & _) & _) & _) & _). lia.
Qed.

Lemma ok_quadrant_level q : 0 ≤ q < L → 0 ≤ qlev q ≤ QMAX.
Proof.
  intros Hq. unfold mesh_ok in Hok. rewrite !andb_true_iff in Hok.
  destruct Hok as ((((((((_ & _) & _) & _) & H) & _) & _) & _) & _).
  rewrite forallb_elem_of in H.
  specialize (H q). unfold level_ok in H. rewrite elem_of_seqZ in H. lia.
Qed.

Lemma ok_ghost_level g : 0 ≤ g < G → 0 ≤ glev g ≤ QMAX.
Proof.
  intros Hg. unfold mesh_ok in Hok. rewrite !andb_true_iff in Hok.
  destruct Hok as ((((((((_ & _) & _) & _) & _) & H) & _) & _) & _).
  rewrite forallb_elem_of in H.
  specialize (H g). unfold level_ok in H. rewrite elem_of_seqZ in H. lia.
Qed.

Lemma ok_directions : direction_count P4_TO_P8 bt = Some imax.
Proof.
  unfold mesh_ok in Hok. rewrite !andb_true_iff in Hok.
  destruct Hok as ((((((((_ & _) & _) & _) & _) & _) & H) & _) & _).
  unfold directions. by destruct (direction_count P4_TO_P8 bt).
Qed.

Lemma ok_parallel_boundary pb :
  parallel_boundary mesh = Some pb → Z.of_nat (length pb) = L.
Proof.
  intros Hpb. unfold mesh_ok in Hok. rewrite !andb_true_iff in Hok.
  destruct Hok as ((((((((_ & _) & _) & _) & _) & _) & _) & H) & _).
  rewrite Hpb in H. lia.
Qed.

Lemma ok_neighbor q dir nb :
  0 ≤ q < L → 0 ≤ dir < imax → nb ∈ mesh_neighbors mesh q dir →
  0 ≤ nb_qid nb < L + G
  ∧ level (nb_quad nb)
    = if nb_qid nb <? L then qlev (nb_qid nb) else glev (nb_qid nb - L).
Proof.
  intros Hq Hdir Hnb. unfold mesh_ok in Hok. rewrite !andb_true_iff in Hok.
  destruct Hok as (_ & H).
  rewrite forallb_elem_of in H. specialize (H q).
  rewrite elem_of_seqZ, forallb_elem_of in H.
  specialize (H ltac:(lia) dir).
  rewrite elem_of_seqZ, forallb_elem_of in H.
  specialize (H ltac:(lia) nb Hnb).
  unfold neighbor_ok in H. rewrite !andb_true_iff in H. lia.
Qed.

Lemma ok_neighbor_level q dir nb :
  0 ≤ q < L → 0 ≤ dir < imax → nb ∈ mesh_neighbors mesh q dir →
  level (nb_quad nb) ≤ QMAX.
Proof.
  intros Hq Hdir Hnb.
  destruct (ok_neighbor q dir nb Hq Hdir Hnb) as [Hid ->].
  destruct (Z.ltb_spec (nb_qid nb) L).
  - apply ok_quadrant_level. lia.
  - apply ok_ghost_level. lia.
Qed.

Lemma load_quadrant q :
  0 ≤ q < L →
  ∃ quad, load (quadrants p4est) q = Some quad ∧ level quad = qlev q.
Proof.
  intros Hq. destruct ok_counts as (_ & _ & Hlen & _).
  destruct (load_is_Some (quadrants p4est) q) as [quad Hquad]; [lia|].
  exists quad. split; [done|]. unfold quadrant_level. by rewrite Hquad.
Qed.

Lemma load_ghost g :
  0 ≤ g < G →
  ∃ quad, load (ghosts ghost) g = Some quad ∧ level quad = glev g.
Proof.
  intros Hg. destruct ok_counts as (_ & _ & _ & Hlen).
  destruct (load_is_Some (ghosts ghost) g) as [quad Hquad]; [lia|].
  exists quad. split; [done|]. unfold ghost_level. by rewrite Hquad.
Qed.

(** A host lies strictly below the deepest level. *)
Lemma host_level q : 0 ≤ q < L → host q = true → qlev q + 1 ≤ QMAX.
Proof.
  intros Hq Hh. unfold has_finer_neighbor in Hh.
  apply existsb_elem_of in Hh as (dir & Hdir & Hh).
  apply existsb_elem_of in Hh as (nb & Hnb & Hfin).
  apply elem_of_seqZ in Hdir.
  pose proof (ok_neighbor_level q dir nb Hq ltac:(lia) Hnb).
  unfold is_finer in Hfin. lia.
Qed.

(** What a hit of boundary mode is. *)
Lemma elem_of_hits q g :
  g ∈ hits q ↔
  ∃ dir nb, 0 ≤ dir < imax ∧ nb ∈ mesh_neighbors mesh q dir
            ∧ coarser_ghost L G (qlev q) nb = true ∧ g = nb_qid nb - L.
Proof.
  unfold ghost_hits. rewrite list_elem_of_In, in_flat_map. split.
  - intros (dir & Hdir & Hg). unfold ghost_hits_of in Hg.
    apply in_map_iff in Hg as (nb & <- & Hnb).
    apply filter_In in Hnb as [Hnb Hc].
    apply list_elem_of_In, elem_of_seqZ in Hdir.
    exists dir, nb. repeat split; try lia; try done. by apply list_elem_of_In.
  - intros (dir & nb & Hdir & Hnb & Hc & ->). exists dir. split.
    + apply list_elem_of_In, elem_of_seqZ. lia.
    + unfold ghost_hits_of. apply in_map_iff. exists nb. split; [done|].
      apply filter_In. split; [by apply list_elem_of_In|done].
Qed.

Lemma hits_in_range q : 0 ≤ q < L → Forall (λ i, 0 ≤ i < G) (hits q).
Proof.
  intros Hq. apply Forall_forall. intros g Hg.
  apply elem_of_hits in Hg as (dir & nb & Hdir & Hnb & Hc & ->).
  destruct (ok_neighbor q dir nb Hq Hdir Hnb) as [Hid _].
  unfold coarser_ghost, ghost_check in Hc. rewrite !andb_true_iff in Hc. lia.
Qed.

Lemma hits_level q g : 0 ≤ q < L → g ∈ hits q → glev g < qlev q.
Proof.
  intros Hq Hg.
  apply elem_of_hits in Hg as (dir & nb & Hdir & Hnb & Hc & ->).
  destruct (ok_neighbor q dir nb Hq Hdir Hnb) as [Hid Hlev].
  unfold coarser_ghost, ghost_check in Hc. rewrite !andb_true_iff in Hc.
  destruct (Z.ltb_spec (nb_qid nb) L); lia.
Qed.

Lemma marks_succ k g :
  0 ≤ k →
  marks_upto (k + 1) g
  = marks_upto k g || (routed k && existsb (Z.eqb g) (hits k)).
Proof. intros Hk. unfold marks. by rewrite existsb_seqZ_succ. Qed.

Lemma marked_level g : 0 ≤ g < G → is_marked g = true → glev g + 1 ≤ QMAX.
Proof.
  intros Hg Hm. unfold marked, marks in Hm.
  apply existsb_elem_of in Hm as (q & Hq & Hm).
  apply elem_of_seqZ in Hq. apply andb_true_iff in Hm as [_ Hm].
  apply existsb_elem_of in Hm as (g' & Hg' & Heq).
  apply Z.eqb_eq in Heq. subst g'.
  pose proof (hits_level q g ltac:(lia) Hg').
  pose proof (ok_quadrant_level q ltac:(lia)). lia.
Qed.

(** *** Pass 1 *)

Ltac same_index k :=
  try match goal with
      | i : Z |- _ =>
          tryif constr_eq i k then fail
          else (assert (i = k) by lia; subst i)
      end.

Ltac close_case k H :=
  rewrite ?count_succ by lia; rewrite ?H;
  split_tests; subst; same_index k; rewrite ?H; simpl; rewrite ?app_nil_r;
  try lia; try done.

Ltac run_arrays :=
  repeat progress (rewrite ?load_tab, ?store_tab by lia; simpl).

Ltac tab_case :=
  apply tab_ext; intros ? ?;
  unfold qflag_at, gflag_at, real_offset, virtual_offset, real_count,
    virt_count, level_list;
  rewrite ?count_succ, ?filter_seqZ_succ by lia.

Lemma account_pass1 gf k :
  0 ≤ k < L →
  account_quadrant P4_TO_P8 (host k) k (qlev k) (state1 gf k)
  = Some (state1 gf (k + 1)).
Proof.
  intros Hk.
  pose proof (ok_quadrant_level k Hk) as Hlev.
  pose proof (host_level k Hk) as Hhost.
  unfold account_quadrant, pass1_state. destruct cl; simpl.
  - run_arrays.
    destruct (host k) eqn:Hh; simpl.
    + specialize (Hhost eq_refl). run_arrays.
      fields; try tab_case; close_case k Hh.
    + fields; try tab_case; close_case k Hh.
  - destruct (host k) eqn:Hh; simpl.
    + run_arrays. fields; try tab_case; close_case k Hh.
    + fields; try tab_case; close_case k Hh.
Qed.

Lemma host_unfold k :
  existsb (λ dir, existsb (is_finer (qlev k)) (mesh_neighbors mesh k dir))
          (seqZ 0 imax)
  = host k.
Proof. done. Qed.

Lemma inner_pass1 gf k :
  0 ≤ k < L →
  has_virtuals_inner P4_TO_P8 p4est ghost mesh k (state1 gf k)
  = Some (state1 gf (k + 1)).
Proof.
  intros Hk. unfold has_virtuals_inner, p4est_mesh_get_quadrant.
  destruct (load_quadrant k Hk) as (quad & -> & Hquad). simpl.
  rewrite ok_directions. simpl.
  rewrite inner_directions_existsb, Hquad, host_unfold.
  by apply account_pass1.
Qed.

Lemma boundary_pass1 (f : Z → Z) k :
  0 ≤ k < L →
  has_virtuals_parallel_boundary P4_TO_P8 p4est ghost mesh k
    (state1 (tab f G) k)
  = Some (state1 (tab (λ g, if existsb (Z.eqb g) (hits k) then 1 else f g) G)
                 (k + 1)).
Proof.
  intros Hk. unfold has_virtuals_parallel_boundary, p4est_mesh_get_quadrant.
  destruct (load_quadrant k Hk) as (quad & -> & Hquad). simpl.
  rewrite ok_directions. simpl.
  rewrite boundary_directions_spec, Hquad, host_unfold.
  change (flat_map _ (seqZ 0 imax)) with (hits k).
  rewrite mark_tab by (by apply hits_in_range). simpl.
  by apply account_pass1.
Qed.

Lemma routed_load pb k :
  parallel_boundary mesh = Some pb → 0 ≤ k < L →
  ∃ b, load pb k = Some b ∧ routed k = negb (b =? -1).
Proof.
  intros Hpb Hk. pose proof (ok_parallel_boundary pb Hpb) as Hlen.
  destruct (load_is_Some pb k) as [b Hb]; [lia|].
  exists b. split; [done|]. unfold boundary_routed. by rewrite Hpb, Hb.
Qed.

Lemma classify_pass1 k :
  0 ≤ k < L →
  classify_quadrant P4_TO_P8 p4est ghost mesh
    (state1 (tab (gmark_at P4_TO_P8 p4est mesh bt k) G) k) k
  = Some (state1 (tab (gmark_at P4_TO_P8 p4est mesh bt (k + 1)) G) (k + 1)).
Proof.
  intros Hk. unfold classify_quadrant.
  destruct (parallel_boundary mesh) as [pb|] eqn:Hpb.
  - destruct (routed_load pb k Hpb Hk) as (b & -> & Hr). simpl.
    destruct (b =? -1); simpl in Hr.
    + rewrite inner_pass1 by done. fields.
      apply tab_ext. intros g _. unfold gmark_at.
      by rewrite marks_succ, Hr, orb_false_r by lia.
    + rewrite boundary_pass1 by done. fields.
      apply tab_ext. intros g _. unfold gmark_at.
      rewrite marks_succ, Hr by lia. simpl.
      by destruct (marks_upto k g), (existsb (Z.eqb g) (hits k)).
  - rewrite boundary_pass1 by done. fields.
    apply tab_ext. intros g _. unfold gmark_at.
    rewrite marks_succ by lia. unfold boundary_routed. rewrite Hpb. simpl.
    by destruct (marks_upto k g), (existsb (Z.eqb g) (hits k)).
Qed.

Lemma start_pass1 :
  start_pass QMAX (allocate_virtual QMAX mesh bt cl) (-1)
  = state1 (tab (gmark_at P4_TO_P8 p4est mesh bt 0) G) 0.
Proof.
  unfold start_pass, allocate_virtual, pass1_state.
  rewrite !alloc_filled_tab.
  destruct cl; fields; try tab_case; split_tests; done.
Qed.

Lemma pass1_closed k :
  0 ≤ k ≤ L →
  foldM (classify_quadrant P4_TO_P8 p4est ghost mesh) (seqZ 0 k)
    (start_pass QMAX (allocate_virtual QMAX mesh bt cl) (-1))
  = Some (state1 (tab (gmark_at P4_TO_P8 p4est mesh bt k) G) k).
Proof.
  intros Hk. rewrite start_pass1.
  apply (foldM_closed _
           (λ k, state1 (tab (gmark_at P4_TO_P8 p4est mesh bt k) G) k)).
  - lia.
  - intros. apply classify_pass1. lia.
Qed.

(** *** Pass 2 *)

Lemma gflag_at_here k :
  gflag_at P4_TO_P8 p4est mesh bt k k = if is_marked k then 1 else -1.
Proof. unfold gflag_at. by rewrite Z.ltb_irrefl. Qed.

Lemma ghost_pass2 k :
  0 ≤ k < G →
  index_ghost P4_TO_P8 ghost (state2 k) k = Some (state2 (k + 1)).
Proof.
  intros Hk.
  pose proof (ok_ghost_level k Hk) as Hlev.
  pose proof (marked_level k Hk) as Hmark.
  unfold index_ghost, pass2_state. destruct cl; simpl.
  - destruct (load_ghost k Hk) as (quad & -> & Hquad). simpl.
    rewrite Hquad.
    rewrite (load_tab (gflag_at P4_TO_P8 p4est mesh bt k)) by lia. simpl.
    rewrite gflag_at_here.
    destruct (is_marked k) eqn:Hm; simpl.
    + specialize (Hmark eq_refl). run_arrays.
      fields; try tab_case; close_case k Hm.
    + run_arrays. fields; try tab_case; close_case k Hm.
  - rewrite (load_tab (gflag_at P4_TO_P8 p4est mesh bt k)) by lia. simpl.
    rewrite gflag_at_here.
    destruct (is_marked k) eqn:Hm; simpl.
    + run_arrays. fields; try tab_case; close_case k Hm.
    + fields; try tab_case; close_case k Hm.
Qed.

Lemma pass2_closed :
  foldM (index_ghost P4_TO_P8 ghost) (seqZ 0 G) (state2 0) = Some (state2 G).
Proof.
  apply (foldM_closed _ state2).
  - apply ok_counts.
  - apply ghost_pass2.
Qed.

(** *** The whole constructor *)

Lemma start_pass2 :
  start_pass QMAX
    (st_virtual (state1 (tab (gmark_at P4_TO_P8 p4est mesh bt L) G) L)) 0
  = state2 0.
Proof.
  unfold start_pass, pass1_state, pass2_state.
  rewrite !alloc_filled_tab.
  destruct cl; simpl; fields; try tab_case; unfold gmark_at;
    fold (is_marked i); split_tests; done.
Qed.

Lemma new_ext_closed :
  p4est_virtual_new_ext P4_TO_P8 QMAX p4est ghost mesh bt cl = Some result.
Proof.
  unfold p4est_virtual_new_ext.
  rewrite pass1_closed by (pose proof ok_counts; lia).
  cbn [mbind option_bind]. rewrite start_pass2, pass2_closed. done.
Qed.

(** *** Reading the result *)

Lemma host_iff q :
  host q = true ↔
  ∃ dir nb, 0 ≤ dir < imax ∧ nb ∈ mesh_neighbors mesh q dir
            ∧ qlev q < level (nb_quad nb).
Proof.
  unfold has_finer_neighbor. rewrite existsb_elem_of. split.
  - intros (dir & Hdir & H). apply existsb_elem_of in H as (nb & Hnb & H).
    apply elem_of_seqZ in Hdir. unfold is_finer in H.
    exists dir, nb. repeat split; try done; lia.
  - intros (dir & nb & Hdir & Hnb & H). exists dir. split.
    + apply elem_of_seqZ. lia.
    + apply existsb_elem_of. exists nb. split; [done|].
      unfold is_finer. lia.
Qed.

Lemma built_qflag q :
  0 ≤ q < L →
  load (virtual_qflags result) q = Some (if host q then count host q else -1).
Proof.
  intros Hq. unfold result, built, pass2_state. simpl.
  rewrite load_tab by done. unfold qflag_at.
  by destruct (Z.ltb_spec q L); [|lia].
Qed.

Lemma built_gflag g :
  0 ≤ g < G →
  load (virtual_gflags result) g
  = Some (if is_marked g then count is_marked g else -1).
Proof.
  intros Hg. unfold result, built, pass2_state. simpl.
  rewrite load_tab by done. unfold gflag_at.
  by destruct (Z.ltb_spec g G); [|lia].
Qed.

Lemma built_qflag_set q :
  0 ≤ q < L → flag_set (virtual_qflags result) q = host q.
Proof.
  intros Hq. unfold flag_set. rewrite built_qflag by done. simpl.
  destruct (host q); [|done].
  pose proof (count_nonneg host q). by apply Z.leb_le.
Qed.

Lemma built_gflag_set g :
  0 ≤ g < G → flag_set (virtual_gflags result) g = is_marked g.
Proof.
  intros Hg. unfold flag_set. rewrite built_gflag by done. simpl.
  destruct (is_marked g); [|done].
  pose proof (count_nonneg is_marked g). by apply Z.leb_le.
Qed.

Lemma marked_iff g :
  0 ≤ g < G →
  is_marked g = true ↔
  ∃ q, 0 ≤ q < L ∧ routed q = true ∧ g ∈ hits q.
Proof.
  intros Hg. unfold marked, marks.
  rewrite existsb_elem_of. split.
  - intros (q & Hq & H). apply elem_of_seqZ in Hq.
    apply andb_true_iff in H as [Hr H].
    apply existsb_elem_of in H as (g' & Hg' & Heq).
    apply Z.eqb_eq in Heq. subst g'. exists q. repeat split; try done; lia.
  - intros (q & Hq & Hr & Hin). exists q. split.
    + apply elem_of_seqZ. lia.
    + rewrite Hr. simpl. apply existsb_elem_of. exists g. split; [done|].
      apply Z.eqb_refl.
Qed.

(** A ghost is hit by [q] exactly when it is a coarser neighbor of [q]. *)
Lemma hits_iff q g :
  0 ≤ q < L → 0 ≤ g < G →
  g ∈ hits q ↔
  ∃ dir nb, 0 ≤ dir < imax ∧ nb ∈ mesh_neighbors mesh q dir
            ∧ nb_qid nb = L + g ∧ glev g < qlev q.
Proof.
  intros Hq Hg. split.
  - intros Hin. pose proof (hits_level q g Hq Hin) as Hlev.
    apply elem_of_hits in Hin as (dir & nb & Hdir & Hnb & _ & ->).
    exists dir, nb. repeat split; try done; lia.
  - intros (dir & nb & Hdir & Hnb & Hid & Hlev).
    apply elem_of_hits. exists dir, nb.
    split; [done|]. split; [done|]. split; [|lia].
    destruct (ok_neighbor q dir nb Hq Hdir Hnb) as [_ Hnlev].
    destruct (Z.ltb_spec (nb_qid nb) L); [lia|].
    replace (nb_qid nb - L) with g in Hnlev by lia.
    unfold coarser_ghost, is_finer, ghost_check.
    rewrite !andb_true_iff, negb_true_iff.
    repeat split; lia.
Qed.

Lemma interior_no_hits q :
  interior_ok P4_TO_P8 p4est mesh bt = true →
  0 ≤ q < L → routed q = false → hits q = [].
Proof.
  intros Hint Hq Hr. unfold interior_ok in Hint.
  rewrite forallb_elem_of in Hint. specialize (Hint q).
  rewrite elem_of_seqZ, Hr in Hint. specialize (Hint ltac:(lia)).
  simpl in Hint. by destruct (hits q).
Qed.

(** *** Ranges of the values written *)

Lemma tokens_in_range q :
  0 ≤ q < L →
  ∃ flag, load (virtual_qflags result) q = Some flag ∧ -1 ≤ flag < L.
Proof.
  intros Hq. rewrite built_qflag by done. eexists. split; [done|].
  pose proof (count_nonneg host q). pose proof (count_le host q).
  destruct (host q); lia.
Qed.

Lemma offsets_in_range hostp lev k q :
  0 ≤ q →
  -1 ≤ real_offset P4_TO_P8 hostp lev k q ≤ (1 + CH) * q
  ∧ -1 ≤ virtual_offset P4_TO_P8 hostp lev k q ≤ (1 + CH) * q.
Proof.
  intros Hq. unfold real_offset, virtual_offset, real_count, virt_count.
  assert (0 < CH) by (unfold P4EST_CHILDREN; destruct P4_TO_P8; lia).
  pose proof (count_nonneg (λ q0, lev q0 =? lev q) q).
  pose proof (count_le (λ q0, lev q0 =? lev q) q Hq).
  pose proof (count_nonneg (λ q0, lev q0 =? lev q + 1) q).
  pose proof (count_le (λ q0, lev q0 =? lev q + 1) q Hq).
  pose proof (count_nonneg (λ q0, hostp q0 && (lev q0 + 1 =? lev q)) q).
  pose proof (count_le (λ q0, hostp q0 && (lev q0 + 1 =? lev q)) q Hq).
  pose proof (count_nonneg (λ q0, hostp q0 && (lev q0 + 1 =? lev q + 1)) q).
  pose proof (count_le (λ q0, hostp q0 && (lev q0 + 1 =? lev q + 1)) q Hq).
  destruct (q <? k), (hostp q); simpl; nia.
Qed.


End Construction.

(** * Properties of the specification *)

Section Properties.

Variable P4_TO_P8 : bool.
Variable QMAX : Z.
Variable p4est : p4est_t.
Variable ghost : p4est_ghost_t.
Variable mesh : p4est_mesh_t.
Variable bt : p4est_connect_type_t.

Local Abbreviation L := (mesh_local_num_quadrants mesh).
Local Abbreviation G := (mesh_ghost_num_quadrants mesh).
Local Abbreviation qlev := (quadrant_level p4est).
Local Abbreviation glev := (ghost_level ghost).

(** C3.  On a mesh that meets the contract the constructor returns, and
    for every owned quadrant [q] the flag [qflags[q]] is nonnegative
    exactly when some neighbor of [q], in a direction selected by the
    connection type, is strictly finer than [q].  The mesh is arbitrary,
    so this covers quadrants classified in interior mode and in boundary
    mode alike. *)
Theorem classification_complete (cl : bool) :
  mesh_ok P4_TO_P8 QMAX p4est ghost mesh bt = true →
  ∃ vq,
    p4est_virtual_new_ext P4_TO_P8 QMAX p4est ghost mesh bt cl = Some vq
    ∧ ∀ q, 0 ≤ q < L →
        ∃ flag,
          load (virtual_qflags vq) q = Some flag
          ∧ (0 ≤ flag ↔
             ∃ dir nb,
               0 ≤ dir < directions P4_TO_P8 bt
               ∧ nb ∈ p4est_mesh_get_neighbors p4est ghost mesh q dir
               ∧ qlev q < level (nb_quad nb)).
Proof.
  intros Hok. eexists. split; [by apply new_ext_closed|].
  intros q Hq. rewrite built_qflag by done.
  eexists. split; [done|].
  unfold p4est_mesh_get_neighbors. rewrite <- host_iff.
  pose proof (count_nonneg (has_finer_neighbor P4_TO_P8 p4est mesh bt) q).
  destruct (has_finer_neighbor P4_TO_P8 p4est mesh bt q); split;
    intros; try done; lia.
Qed.

(** C4.  On a mesh that meets the contract, and whose interior quadrants
    border no coarser ghost, [gflags[g]] is nonnegative exactly when some
    owned quadrant has ghost [g] among its neighbors with the ghost
    strictly coarser; and every marked ghost carries the number of marked
    ghosts before it, that is the values 0, 1, 2, ... in ascending
    order. *)
Theorem ghost_marking (cl : bool) :
  mesh_ok P4_TO_P8 QMAX p4est ghost mesh bt = true →
  interior_ok P4_TO_P8 p4est mesh bt = true →
  ∃ vq,
    p4est_virtual_new_ext P4_TO_P8 QMAX p4est ghost mesh bt cl = Some vq
    ∧ ∀ g, 0 ≤ g < G →
        ∃ flag,
          load (virtual_gflags vq) g = Some flag
          ∧ (0 ≤ flag ↔
             ∃ q dir nb,
               0 ≤ q < L ∧ 0 ≤ dir < directions P4_TO_P8 bt
               ∧ nb ∈ p4est_mesh_get_neighbors p4est ghost mesh q dir
               ∧ nb_qid nb = L + g ∧ glev g < qlev q)
          ∧ (0 ≤ flag → flag = count (flag_set (virtual_gflags vq)) g).
Proof.
  intros Hok Hint. eexists. split; [by apply new_ext_closed|].
  intros g Hg. rewrite built_gflag by done.
  eexists. split; [done|].
  set (m := marked P4_TO_P8 p4est mesh bt).
  assert (Hm : m g = true ↔
               ∃ q dir nb,
                 0 ≤ q < L ∧ 0 ≤ dir < directions P4_TO_P8 bt
                 ∧ nb ∈ mesh_neighbors mesh q dir
                 ∧ nb_qid nb = L + g ∧ glev g < qlev q).
  { unfold m. rewrite marked_iff by done. split.
    - intros (q & Hq & _ & Hin).
      apply (hits_iff _ _ _ _ _ _ Hok q g Hq Hg) in Hin as (dir & nb & ?).
      by exists q, dir, nb.
    - intros (q & dir & nb & Hq & H). exists q. split; [done|].
      assert (Hin : g ∈ ghost_hits P4_TO_P8 p4est mesh bt q).
      { apply (hits_iff _ _ _ _ _ _ Hok q g Hq Hg). by exists dir, nb. }
      split; [|done].
      destruct (boundary_routed mesh q) eqn:Hr; [done|].
      erewrite interior_no_hits in Hin by eauto.
      by apply elem_of_nil in Hin. }
  unfold p4est_mesh_get_neighbors. rewrite <- Hm.
  pose proof (count_nonneg m g).
  split.
  - destruct (m g); split; intros; try done; lia.
  - destruct (m g) eqn:E; [|lia]. intros _.
    apply count_ext. intros i Hi. symmetry.
    apply built_gflag_set. lia.
Qed.

(** C7.  With level lists, for every level [l] in [0, QMAX] the list
    [qlevels[l]] is the ascending enumeration of the owned quadrants,
    filtered to those of level [l - 1] whose flag is nonnegative, and
    [glevels[l]] is the same for the ghosts; both are empty at level 0. *)
Theorem level_lists_faithful :
  mesh_ok P4_TO_P8 QMAX p4est ghost mesh bt = true →
  ∃ vq ll,
    p4est_virtual_new_ext P4_TO_P8 QMAX p4est ghost mesh bt true = Some vq
    ∧ level_lists vq = Some ll
    ∧ ∀ l, 0 ≤ l ≤ QMAX →
        load (virtual_qlevels ll) l
        = Some (List.filter
                  (λ q, (qlev q =? l - 1) && flag_set (virtual_qflags vq) q)
                  (seqZ 0 L))
        ∧ load (virtual_glevels ll) l
          = Some (List.filter
                    (λ g, (glev g =? l - 1) && flag_set (virtual_gflags vq) g)
                    (seqZ 0 G))
        ∧ (l = 0 → load (virtual_qlevels ll) l = Some []
                   ∧ load (virtual_glevels ll) l = Some []).
Proof.
  intros Hok. eexists. eexists.
  split; [by apply new_ext_closed|]. split; [reflexivity|].
  intros l Hl. simpl. rewrite !load_tab by lia.
  assert (Hq : level_list (has_finer_neighbor P4_TO_P8 p4est mesh bt) qlev L l
               = List.filter
                   (λ q, (qlev q =? l - 1)
                         && flag_set (virtual_qflags
                              (built P4_TO_P8 QMAX p4est ghost mesh bt true)) q)
                   (seqZ 0 L)).
  { unfold level_list. apply List.filter_ext_in. intros q Hq.
    apply list_elem_of_In, elem_of_seqZ in Hq.
    rewrite built_qflag_set by lia. rewrite andb_comm. f_equal.
    split_tests. }
  assert (Hg : level_list (marked P4_TO_P8 p4est mesh bt) glev G l
               = List.filter
                   (λ g, (glev g =? l - 1)
                         && flag_set (virtual_gflags
                              (built P4_TO_P8 QMAX p4est ghost mesh bt true)) g)
                   (seqZ 0 G)).
  { unfold level_list. apply List.filter_ext_in. intros g Hg.
    apply list_elem_of_In, elem_of_seqZ in Hg.
    rewrite built_gflag_set by lia. rewrite andb_comm. f_equal.
    split_tests. }
  split; [by rewrite Hq|]. split; [by rewrite Hg|].
  intros ->. split; f_equal; unfold level_list.
  - apply filter_none. intros q Hq'. apply elem_of_seqZ in Hq'.
    pose proof (ok_quadrant_level _ _ _ _ _ _ Hok q ltac:(lia)).
    apply andb_false_iff. right. split_tests.
  - apply filter_none. intros g Hg'. apply elem_of_seqZ in Hg'.
    pose proof (ok_ghost_level _ _ _ _ _ _ Hok g ltac:(lia)).
    apply andb_false_iff. right. split_tests.
Qed.


(** C6.  With level lists, for every owned quadrant [q] of level [l]:
    when the first loop reaches [q], the per-level counters hold at [l]
    the number of earlier quadrants of level [l] and the number of earlier
    hosts whose virtual level (their own level plus one) is [l];
    [qreal_offset[q]] is the first plus CHILDREN times the second;
    [qvirtual_offset[q]] is the same formula one level up for a host and
    stays -1 otherwise.  The ghost offsets of the second loop follow the
    same formulas over the ghosts. *)
Theorem offset_formula :
  mesh_ok P4_TO_P8 QMAX p4est ghost mesh bt = true →
  ∃ vq ll,
    p4est_virtual_new_ext P4_TO_P8 QMAX p4est ghost mesh bt true = Some vq
    ∧ level_lists vq = Some ll
    ∧ (∀ q, 0 ≤ q < L →
         let hostq := flag_set (virtual_qflags vq) in
         let real_seen l := count (λ q', qlev q' =? l) q in
         let virt_seen l := count (λ q', hostq q' && (qlev q' + 1 =? l)) q in
         (∃ st,
            foldM (classify_quadrant P4_TO_P8 p4est ghost mesh) (seqZ 0 q)
              (start_pass QMAX (allocate_virtual QMAX mesh bt true) (-1))
            = Some st
            ∧ load (st_real st) (qlev q) = Some (real_seen (qlev q))
            ∧ load (st_virt st) (qlev q) = Some (virt_seen (qlev q)))
         ∧ load (quad_qreal_offset ll) q
           = Some (real_seen (qlev q)
                   + P4EST_CHILDREN P4_TO_P8 * virt_seen (qlev q))
         ∧ load (quad_qvirtual_offset ll) q
           = Some (if hostq q
                   then real_seen (qlev q + 1)
                        + P4EST_CHILDREN P4_TO_P8 * virt_seen (qlev q + 1)
                   else -1))
    ∧ (∀ g, 0 ≤ g < G →
         let hostg := flag_set (virtual_gflags vq) in
         let real_seen l := count (λ g', glev g' =? l) g in
         let virt_seen l := count (λ g', hostg g' && (glev g' + 1 =? l)) g in
         load (quad_greal_offset ll) g
         = Some (real_seen (glev g)
                 + P4EST_CHILDREN P4_TO_P8 * virt_seen (glev g))
         ∧ load (quad_gvirtual_offset ll) g
           = Some (if hostg g
                   then real_seen (glev g + 1)
                        + P4EST_CHILDREN P4_TO_P8 * virt_seen (glev g + 1)
                   else -1)).
Proof.
  intros Hok.
  set (host := has_finer_neighbor P4_TO_P8 p4est mesh bt).
  set (mark := marked P4_TO_P8 p4est mesh bt).
  pose (ll := {| quad_qreal_offset := tab (real_offset P4_TO_P8 host qlev L) L;
                 quad_qvirtual_offset :=
                   tab (virtual_offset P4_TO_P8 host qlev L) L;
                 quad_greal_offset := tab (real_offset P4_TO_P8 mark glev G) G;
                 quad_gvirtual_offset :=
                   tab (virtual_offset P4_TO_P8 mark glev G) G;
                 virtual_qlevels := tab (level_list host qlev L) (QMAX + 1);
                 virtual_glevels := tab (level_list mark glev G) (QMAX + 1) |}).
  exists (built P4_TO_P8 QMAX p4est ghost mesh bt true), ll.
  split; [by apply new_ext_closed|]. split; [reflexivity|].
  assert (Hvq : ∀ q l, 0 ≤ q ≤ L →
            count (λ q', flag_set (virtual_qflags
                           (built P4_TO_P8 QMAX p4est ghost mesh bt true)) q'
                         && (qlev q' + 1 =? l)) q
            = virt_count host qlev l q).
  { intros q l Hq. apply count_ext. intros i Hi.
    by rewrite built_qflag_set by lia. }
  assert (Hvg : ∀ g l, 0 ≤ g ≤ G →
            count (λ g', flag_set (virtual_gflags
                           (built P4_TO_P8 QMAX p4est ghost mesh bt true)) g'
                         && (glev g' + 1 =? l)) g
            = virt_count mark glev l g).
  { intros g l Hg. apply count_ext. intros i Hi.
    by rewrite built_gflag_set by lia. }
  split.
  - intros q Hq. cbv beta zeta.
    pose proof (ok_quadrant_level _ _ _ _ _ _ Hok q Hq) as Hlev.
    rewrite !Hvq by lia. rewrite built_qflag_set by done.
    unfold ll; cbn [quad_qreal_offset quad_qvirtual_offset].
    split; [|split].
    + eexists. split; [apply pass1_closed; [done|lia]|].
      unfold pass1_state; cbn [st_real st_virt].
      rewrite !load_tab by lia. done.
    + rewrite load_tab by done. unfold real_offset.
      destruct (Z.ltb_spec q L); [done|lia].
    + rewrite load_tab by done. unfold virtual_offset.
      destruct (Z.ltb_spec q L); [|lia]. simpl. fold host.
      by destruct (host q).
  - intros g Hg. cbv beta zeta.
    rewrite !Hvg by lia. rewrite built_gflag_set by done.
    unfold ll; cbn [quad_greal_offset quad_gvirtual_offset].
    split.
    + rewrite load_tab by done. unfold real_offset.
      destruct (Z.ltb_spec g G); [done|lia].
    + rewrite load_tab by done. unfold virtual_offset.
      destruct (Z.ltb_spec g G); [|lia]. simpl. fold mark.
      by destruct (mark g).
Qed.


Lemma mesh_ok_without_parallel_boundary :
  mesh_ok P4_TO_P8 QMAX p4est ghost mesh bt = true →
  mesh_ok P4_TO_P8 QMAX p4est ghost (without_parallel_boundary mesh) bt = true.
Proof.
  unfold mesh_ok. simpl. rewrite !andb_true_iff.
  intros ((((((((? & ?) & ?) & ?) & ?) & ?) & ?) & _) & ?).
  repeat split; done.
Qed.

(** C5.  Running the constructor on a mesh with a [parallel_boundary]
    array (interior mode with its early exit where the array says -1) and
    on the same mesh without it (boundary mode everywhere) gives the same
    [qflags], [qreal_offset], [qvirtual_offset] and [qlevels].  A ghost
    whose mark differs between the two runs is marked by the boundary-only
    run and is a coarser neighbor of a quadrant that was routed through
    interior mode. *)
Theorem modes_agree (cl : bool) :
  mesh_ok P4_TO_P8 QMAX p4est ghost mesh bt = true →
  ∃ vi vb,
    p4est_virtual_new_ext P4_TO_P8 QMAX p4est ghost mesh bt cl = Some vi
    ∧ p4est_virtual_new_ext P4_TO_P8 QMAX p4est ghost
        (without_parallel_boundary mesh) bt cl = Some vb
    ∧ virtual_qflags vi = virtual_qflags vb
    ∧ quad_qreal_offset <$> level_lists vi
      = quad_qreal_offset <$> level_lists vb
    ∧ quad_qvirtual_offset <$> level_lists vi
      = quad_qvirtual_offset <$> level_lists vb
    ∧ virtual_qlevels <$> level_lists vi = virtual_qlevels <$> level_lists vb
    ∧ ∀ g, 0 ≤ g < G →
        flag_set (virtual_gflags vi) g ≠ flag_set (virtual_gflags vb) g →
        flag_set (virtual_gflags vb) g = true
        ∧ ∃ q dir nb,
            0 ≤ q < L ∧ boundary_routed mesh q = false
            ∧ 0 ≤ dir < directions P4_TO_P8 bt
            ∧ nb ∈ p4est_mesh_get_neighbors p4est ghost mesh q dir
            ∧ nb_qid nb = L + g ∧ glev g < qlev q.
Proof.
  intros Hok.
  pose proof (mesh_ok_without_parallel_boundary Hok) as Hok'.
  eexists. eexists.
  split; [by apply new_ext_closed|]. split; [by apply new_ext_closed|].
  split; [reflexivity|].
  split; [by destruct cl|]. split; [by destruct cl|]. split; [by destruct cl|].
  intros g Hg.
  rewrite built_gflag_set by done.
  rewrite (built_gflag_set _ _ _ _ (without_parallel_boundary mesh)) by done.
  intros Hdiff.
  destruct (marked P4_TO_P8 p4est (without_parallel_boundary mesh) bt g)
    eqn:Hb.
  - destruct (marked P4_TO_P8 p4est mesh bt g) eqn:Hi; [done|].
    split; [done|].
    apply marked_iff in Hb as (q & Hq & _ & Hin); [|done].
    change (g ∈ ghost_hits P4_TO_P8 p4est mesh bt q) in Hin.
    simpl in Hq.
    destruct (boundary_routed mesh q) eqn:Hr.
    + assert (marked P4_TO_P8 p4est mesh bt g = true); [|congruence].
      apply marked_iff; [done|]. by exists q.
    + apply (hits_iff _ _ _ _ _ _ Hok q g Hq Hg)
        in Hin as (dir & nb & Hdir & Hnb & Hid & Hlev).
      by exists q, dir, nb.
  - destruct (marked P4_TO_P8 p4est mesh bt g) eqn:Hi; [|done].
    apply marked_iff in Hi as (q & Hq & _ & Hin); [|done].
    assert (marked P4_TO_P8 p4est (without_parallel_boundary mesh) bt g
            = true); [|congruence].
    apply marked_iff; [done|]. by exists q.
Qed.


End Properties.

Lemma classification_complete_witness :
  mesh_ok false 29 Mixed.p4est Mixed.ghost Mixed.mesh P4EST_CONNECT_FACE = true
  ∧ ∃ vq,
      p4est_virtual_new_ext false 29 Mixed.p4est Mixed.ghost Mixed.mesh
        P4EST_CONNECT_FACE true = Some vq
      ∧ ∀ q, 0 ≤ q < 4 →
          ∃ flag,
            load (virtual_qflags vq) q = Some flag
            ∧ (0 ≤ flag ↔
               ∃ dir nb,
                 0 ≤ dir < directions false P4EST_CONNECT_FACE
                 ∧ nb ∈ p4est_mesh_get_neighbors Mixed.p4est Mixed.ghost
                          Mixed.mesh q dir
                 ∧ quadrant_level Mixed.p4est q < level (nb_quad nb)).
Proof.
  split; [reflexivity|].
  apply (classification_complete false 29 Mixed.p4est Mixed.ghost Mixed.mesh
           P4EST_CONNECT_FACE true).
  reflexivity.
Defined.

Lemma ghost_marking_witness :
  mesh_ok false 29 Mixed.p4est Mixed.ghost Mixed.mesh P4EST_CONNECT_FACE = true
  ∧ interior_ok false Mixed.p4est Mixed.mesh P4EST_CONNECT_FACE = true
  ∧ ∃ vq,
      p4est_virtual_new_ext false 29 Mixed.p4est Mixed.ghost Mixed.mesh
        P4EST_CONNECT_FACE true = Some vq
      ∧ ∀ g, 0 ≤ g < 2 →
          ∃ flag,
            load (virtual_gflags vq) g = Some flag
            ∧ (0 ≤ flag ↔
               ∃ q dir nb,
                 0 ≤ q < 4 ∧ 0 ≤ dir < directions false P4EST_CONNECT_FACE
                 ∧ nb ∈ p4est_mesh_get_neighbors Mixed.p4est Mixed.ghost
                          Mixed.mesh q dir
                 ∧ nb_qid nb = 4 + g
                 ∧ ghost_level Mixed.ghost g < quadrant_level Mixed.p4est q)
            ∧ (0 ≤ flag → flag = count (flag_set (virtual_gflags vq)) g).
Proof.
  split; [reflexivity|]. split; [reflexivity|].
  apply (ghost_marking false 29 Mixed.p4est Mixed.ghost Mixed.mesh
           P4EST_CONNECT_FACE true); reflexivity.
Defined.

(** ** Boundary mode stores inside the ghost flags *)

Lemma mark_in_range (gf : list Z) hits :
  Forall (λ i, 0 ≤ i < Z.of_nat (length gf)) hits →
  ∃ gf', foldM mark_ghost hits gf = Some gf' ∧ length gf' = length gf.
Proof.
  revert gf. induction hits as [|i hits IH]; intros gf Hall; simpl.
  - by exists gf.
  - apply Forall_cons in Hall as [Hi Hall].
    destruct (store_is_Some gf i 1 Hi) as [gf1 Hgf1].
    change (mark_ghost gf i) with (store gf i 1). rewrite Hgf1. simpl.
    pose proof (store_length _ _ _ _ Hgf1) as Hlen.
    destruct (IH gf1) as (gf' & Hgf' & Hlen'); [by rewrite Hlen|].
    exists gf'. split; [done|congruence].
Qed.

Lemma ghost_check_spec lq gq n : ghost_check lq gq n = true ↔ lq ≤ n ≤ lq + gq.
Proof. unfold ghost_check. rewrite andb_true_iff. lia. Qed.

(** C8.  The ghost test of boundary mode accepts the closed interval
    [lq, lq + gq], its upper end included.  When the mesh returns only
    ids below [lq + gq], every neighbor that reaches the store has its
    index [nb_qid - lq] in [0, gq), and the scan of boundary mode runs to
    its end without a store outside of the [gq] ghost flags. *)
Theorem ghost_store_in_bounds (p4est : p4est_t) (ghost : p4est_ghost_t)
  (mesh : p4est_mesh_t) (lq gq qid lvl : Z) (dirs : list Z) (hv : bool)
  (gflags : list Z) :
  Z.of_nat (length gflags) = gq →
  (∀ dir nb, dir ∈ dirs →
             nb ∈ p4est_mesh_get_neighbors p4est ghost mesh qid dir →
             nb_qid nb < lq + gq) →
  (∀ n, ghost_check lq gq n = true ↔ lq ≤ n ≤ lq + gq)
  ∧ ghost_check lq gq (lq + gq) = true
  ∧ (∀ dir nb, dir ∈ dirs →
               nb ∈ p4est_mesh_get_neighbors p4est ghost mesh qid dir →
               coarser_ghost lq gq lvl nb = true →
               0 ≤ nb_qid nb - lq < gq)
  ∧ ∃ hv' gflags',
      boundary_directions p4est ghost mesh lq gq qid lvl dirs (hv, gflags)
      = Some (hv', gflags')
      ∧ length gflags' = length gflags.
Proof.
  intros Hlen Hids.
  assert (Hstore : ∀ dir nb, dir ∈ dirs →
            nb ∈ p4est_mesh_get_neighbors p4est ghost mesh qid dir →
            coarser_ghost lq gq lvl nb = true → 0 ≤ nb_qid nb - lq < gq).
  { intros dir nb Hdir Hnb Hc. specialize (Hids dir nb Hdir Hnb).
    unfold coarser_ghost in Hc. rewrite !andb_true_iff in Hc.
    destruct Hc as [[_ Hc] _]. apply ghost_check_spec in Hc. lia. }
  split; [apply ghost_check_spec|].
  split; [apply ghost_check_spec; lia|].
  split; [done|].
  rewrite boundary_directions_spec.
  destruct (mark_in_range gflags
              (flat_map (λ dir, ghost_hits_of lq gq lvl
                                  (mesh_neighbors mesh qid dir)) dirs))
    as (gf' & -> & Hlen').
  { apply Forall_forall. intros i Hi.
    apply list_elem_of_In, in_flat_map in Hi as (dir & Hdir & Hi).
    unfold ghost_hits_of in Hi.
    apply in_map_iff in Hi as (nb & <- & Hnb).
    apply filter_In in Hnb as [Hnb Hc]. rewrite Hlen.
    apply (Hstore dir nb); [by apply list_elem_of_In| |done].
    by apply list_elem_of_In. }
  simpl. by eexists _, _.
Qed.

Lemma ghost_store_in_bounds_witness :
  Z.of_nat (length [-1; -1]) = 2
  ∧ (∀ dir nb, dir ∈ seqZ 0 4 →
        nb ∈ p4est_mesh_get_neighbors Mixed.p4est Mixed.ghost Mixed.mesh 1 dir →
        nb_qid nb < 4 + 2)
  ∧ ∃ hv' gflags',
      boundary_directions Mixed.p4est Mixed.ghost Mixed.mesh 4 2 1 2
        (seqZ 0 4) (false, [-1; -1])
      = Some (hv', gflags')
      ∧ length gflags' = length [-1; -1].
Proof.
  assert (H : ∀ dir nb, dir ∈ seqZ 0 4 →
        nb ∈ p4est_mesh_get_neighbors Mixed.p4est Mixed.ghost Mixed.mesh 1 dir →
        nb_qid nb < 4 + 2).
  { intros dir nb Hdir Hnb. apply elem_of_seqZ in Hdir.
    assert (dir = 0 ∨ dir = 1 ∨ dir = 2 ∨ dir = 3) as [-> | [-> | [-> | ->]]]
      by lia; simpl in Hnb;
      repeat (apply elem_of_cons in Hnb as [Heq|Hnb];
              [subst nb; simpl; lia|]);
      by apply elem_of_nil in Hnb. }
  split; [reflexivity|]. split; [exact H|].
  apply (ghost_store_in_bounds Mixed.p4est Mixed.ghost Mixed.mesh 4 2 1 2
           (seqZ 0 4) false [-1; -1] eq_refl H).
Defined.

(** X20.  Without the precondition the store does leave the array: a coarser
    neighbor with id [lq + gq] passes the test and the scan fails. *)
Lemma ghost_store_escapes (p4est : p4est_t) (ghost : p4est_ghost_t)
  (mesh : p4est_mesh_t) (lq gq qid lvl : Z) (dirs : list Z) (hv : bool)
  (gflags : list Z) dir nb :
  Z.of_nat (length gflags) = gq →
  dir ∈ dirs → nb ∈ mesh_neighbors mesh qid dir →
  nb_qid nb = lq + gq → level (nb_quad nb) < lvl →
  boundary_directions p4est ghost mesh lq gq qid lvl dirs (hv, gflags) = None.
Proof.
  intros Hlen Hdir Hnb Hid Hlev. rewrite boundary_directions_spec.
  destruct (foldM mark_ghost _ gflags) as [gf'|] eqn:E; [|done].
  exfalso.
  assert (Hall := mark_out_of_range gflags _ (mk_is_Some _ _ E)).
  rewrite Forall_forall in Hall. specialize (Hall gq).
  rewrite Hlen in Hall. enough (0 ≤ gq < gq) by lia. apply Hall.
  apply list_elem_of_In, in_flat_map. exists dir.
  split; [by apply list_elem_of_In|].
  unfold ghost_hits_of. apply in_map_iff. exists nb. split; [lia|].
  apply filter_In. split; [by apply list_elem_of_In|].
  unfold coarser_ghost, is_finer, ghost_check.
  rewrite !andb_true_iff, negb_true_iff. repeat split; lia.
Qed.

(** ** Memory accounting *)

Section MemoryProofs.

Variable sizeof_locidx : Z.
Variable sizeof_sc_array : Z.
Variable sizeof_virtual : Z.
Variable sc_array_memory_used : list Z → bool → Z.

Local Abbreviation body := (λ l : list Z, sc_array_memory_used l false).

#[local] Instance same_size_equiv : Equivalence same_size.
Proof. unfold same_size. split; red; intros; congruence. Qed.

#[local] Instance same_size_add :
  Proper (same_size ==> same_size ==> same_size) Z.add.
Proof.
  unfold same_size, size_t. intros a a' Ha b b' Hb.
  rewrite (Z.add_mod a), (Z.add_mod a') by lia. congruence.
Qed.

#[local] Instance same_size_mul :
  Proper (same_size ==> same_size ==> same_size) Z.mul.
Proof.
  unfold same_size, size_t. intros a a' Ha b b' Hb.
  rewrite (Z.mul_mod a), (Z.mul_mod a') by lia. congruence.
Qed.

Lemma same_size_t a : same_size (size_t a) a.
Proof. unfold same_size, size_t. apply Z.mod_mod. lia. Qed.

Lemma tab_succ {A} (f : Z → A) k : 0 ≤ k → tab f (k + 1) = tab f k ++ [f k].
Proof.
  intros Hk. unfold tab. by rewrite seqZ_succ, fmap_app.
Qed.

Lemma Zsum_app l1 l2 : Zsum (l1 ++ l2) = Zsum l1 + Zsum l2.
Proof. induction l1 as [|x l1 IH]; simpl; lia. Qed.

Lemma Zsum_headers (c : Z) (lists : list (list Z)) :
  Zsum (map (λ l, c + body l) lists)
  = Z.of_nat (length lists) * c + Zsum (map body lists).
Proof. induction lists as [|l lists IH]; simpl length; simpl; lia. Qed.

(** The loop over the levels adds the bodies of all level lists. *)
Lemma levels_loop (ll : level_lists_t) (F F' : Z → list Z) n m0 :
  virtual_qlevels ll = tab F n → virtual_glevels ll = tab F' n → 0 ≤ n →
  foldM (level_memory sc_array_memory_used ll) (seqZ 0 n) (size_t m0)
  = Some (size_t (m0 + Zsum (map body (tab F n))
                  + Zsum (map body (tab F' n)))).
Proof.
  intros Hq Hg Hn.
  pose (st := λ k, size_t (m0 + Zsum (map body (tab F k))
                           + Zsum (map body (tab F' k)))).
  replace (size_t m0) with (st 0).
  2:{ unfold st. simpl. f_equal. lia. }
  apply (foldM_closed _ st); [done|].
  intros k Hk. unfold level_memory, st. rewrite Hq, Hg.
  rewrite !load_tab by done. simpl. f_equal.
  rewrite !tab_succ, !map_app, !Zsum_app by lia. simpl.
  match goal with |- ?a = ?b => change (same_size
    (size_t (size_t (m0 + Zsum (map body (tab F k))
                     + Zsum (map body (tab F' k))) + body (F k))
     + body (F' k))
    (m0 + (Zsum (map body (tab F k)) + (body (F k) + 0))
     + (Zsum (map body (tab F' k)) + (body (F' k) + 0)))) end.
  repeat setoid_rewrite same_size_t.
  unfold same_size. f_equal. lia.
Qed.

Variable P4_TO_P8 : bool.
Variable QMAX : Z.
Variable p4est : p4est_t.
Variable ghost : p4est_ghost_t.
Variable mesh : p4est_mesh_t.
Variable bt : p4est_connect_type_t.

Local Abbreviation L := (mesh_local_num_quadrants mesh).
Local Abbreviation G := (mesh_ghost_num_quadrants mesh).
Local Abbreviation memory_used :=
  (p4est_virtual_memory_used QMAX sizeof_locidx sizeof_sc_array sizeof_virtual
     sc_array_memory_used).
Local Abbreviation owned :=
  (owned_bytes sizeof_locidx sizeof_sc_array sizeof_virtual
     sc_array_memory_used).

Lemma memory_used_built (cl : bool) :
  mesh_ok P4_TO_P8 QMAX p4est ghost mesh bt = true →
  0 ≤ QMAX →
  memory_used (built P4_TO_P8 QMAX p4est ghost mesh bt cl)
  = Some (size_t (owned (built P4_TO_P8 QMAX p4est ghost mesh bt cl))).
Proof.
  intros Hok HQ.
  destruct (ok_counts _ _ _ _ _ _ Hok) as (HL & HG & _ & _).
  unfold p4est_virtual_memory_used, owned_bytes, array_bytes,
    level_lists_bytes.
  destruct cl; cbn [built pass2_state st_virtual level_lists virtual_qflags
                    virtual_gflags local_num_quadrants ghost_num_quadrants
                    quad_qreal_offset quad_qvirtual_offset quad_greal_offset
                    quad_gvirtual_offset virtual_qlevels virtual_glevels].
  - erewrite levels_loop; [|reflexivity|reflexivity|lia].
    cbn [mbind option_bind mret option_ret].
    rewrite !Zsum_headers, !length_tab, !Z2Nat.id by lia.
    f_equal.
    match goal with
    | |- size_t ?a = size_t ?b => change (same_size a b)
    end.
    repeat setoid_rewrite same_size_t.
    unfold same_size. f_equal. ring.
  - cbn [mbind option_bind mret option_ret].
    rewrite !length_tab, !Z2Nat.id by lia.
    f_equal.
    match goal with
    | |- size_t ?a = size_t ?b => change (same_size a b)
    end.
    repeat setoid_rewrite same_size_t.
    unfold same_size. f_equal. ring.
Qed.

(** C9.  For the structure the constructor returns, [memory_used] is, as
    a [size_t] value, the sum of the bytes of the two flag arrays ([L] and
    [G] entries), of the four offset arrays when level lists were computed
    ([L], [L], [G] and [G] entries), of the header and the body of each of
    the [QMAX + 1] level lists of both sides, and of the structure; it is
    that sum itself when the sum fits [size_t]. *)
Theorem memory_accounting (cl : bool) :
  mesh_ok P4_TO_P8 QMAX p4est ghost mesh bt = true →
  0 ≤ QMAX →
  ∃ vq,
    p4est_virtual_new_ext P4_TO_P8 QMAX p4est ghost mesh bt cl = Some vq
    ∧ memory_used vq = Some (size_t (owned vq))
    ∧ (0 ≤ owned vq < 2 ^ 64 → memory_used vq = Some (owned vq))
    ∧ Z.of_nat (length (virtual_qflags vq)) = L
    ∧ Z.of_nat (length (virtual_gflags vq)) = G
    ∧ (if cl then
         ∃ ll, level_lists vq = Some ll
               ∧ Z.of_nat (length (quad_qreal_offset ll)) = L
               ∧ Z.of_nat (length (quad_qvirtual_offset ll)) = L
               ∧ Z.of_nat (length (quad_greal_offset ll)) = G
               ∧ Z.of_nat (length (quad_gvirtual_offset ll)) = G
               ∧ Z.of_nat (length (virtual_qlevels ll)) = QMAX + 1
               ∧ Z.of_nat (length (virtual_glevels ll)) = QMAX + 1
       else level_lists vq = None).
Proof.
  intros Hok HQ.
  destruct (ok_counts _ _ _ _ _ _ Hok) as (HL & HG & _ & _).
  eexists. split; [by apply new_ext_closed|].
  split; [by apply memory_used_built|].
  split.
  { intros Hfit. rewrite memory_used_built by done.
    unfold size_t. by rewrite Z.mod_small. }
  cbn [built pass2_state st_virtual virtual_qflags virtual_gflags
       level_lists].
  rewrite !length_tab, !Z2Nat.id by lia.
  split; [done|]. split; [done|].
  destruct cl; [|done].
  eexists. split; [reflexivity|].
  cbn [quad_qreal_offset quad_qvirtual_offset quad_greal_offset
       quad_gvirtual_offset virtual_qlevels virtual_glevels].
  rewrite !length_tab, !Z2Nat.id by lia. done.
Qed.


End MemoryProofs.

(** ** The mirror resolver as it is written *)

Lemma foldM_closed_from {S} (body : S → Z → option S) (st : Z → S) a n :
  (∀ k, a ≤ k < a + n → body (st k) k = Some (st (k + 1))) →
  foldM body (seqZ a n) (st a) = Some (st (a + Z.max 0 n)).
Proof.
  intros Hstep. destruct (Z.le_gt_cases n 0) as [Hn|Hn].
  - rewrite seqZ_nil by done. simpl. do 2 f_equal. lia.
  - replace (seqZ a n) with (Z.add a <$> seqZ 0 n)
      by (rewrite fmap_add_seqZ; f_equal; lia).
    replace (a + Z.max 0 n) with (a + n) by lia.
    assert (Hgen : ∀ l s, foldM body (Z.add a <$> l) s
                          = foldM (λ s k, body s (a + k)) l s).
    { induction l as [|x l IH]; intros s; simpl; [done|].
      destruct (body s (a + x)); simpl; [apply IH|done]. }
    rewrite Hgen. replace (st a) with (st (a + 0)) by (f_equal; lia).
    apply (foldM_closed (λ s k, body s (a + k)) (λ k, st (a + k)) n);
      [lia|].
    intros k Hk. rewrite Hstep by lia. do 2 f_equal. lia.
Qed.

Lemma load_default {A} (a : list A) i d :
  0 ≤ i < Z.of_nat (length a) → load a i = Some (default d (load a i)).
Proof. intros Hi. by destruct (load_is_Some a i Hi) as [x ->]. Qed.

Section ResolverProofs.

Variable P4_TO_P8 : bool.
Variable p4est : p4est_t.
Variable ghost : p4est_ghost_t.
Variable mesh : p4est_mesh_t.
Variable vq : p4est_virtual_t.
Variable bt : p4est_connect_type_t.

Local Abbreviation L := (mesh_local_num_quadrants mesh).
Local Abbreviation G := (mesh_ghost_num_quadrants mesh).
Local Abbreviation off := (offset_of ghost).
Local Abbreviation M := (offset_of ghost (mpisize p4est)).
Local Abbreviation half := (remote_half_size mesh).
Local Abbreviation fires := (slot_fires P4_TO_P8 mesh vq bt).
Local Abbreviation imax := (directions P4_TO_P8 bt).

Hypothesis Hok :
  resolver_ok P4_TO_P8 ghost mesh vq bt (mpisize p4est) = true.

Lemma rok_facts :
  direction_count P4_TO_P8 bt = Some imax
  ∧ 0 ≤ mpisize p4est < Z.of_nat (length (mirror_proc_offsets ghost))
  ∧ 0 ≤ off 0
  ∧ (∀ p, 0 ≤ p < mpisize p4est → off p ≤ off (p + 1))
  ∧ M ≤ Z.of_nat (length (mirror_qid mesh))
  ∧ (∀ s, 0 ≤ s < M →
       0 ≤ mirror_of mesh s < Z.of_nat (length (virtual_qflags vq)))
  ∧ G ≤ Z.of_nat (length (ghost_to_proc mesh)).
Proof.
  unfold resolver_ok in Hok. rewrite !andb_true_iff in Hok.
  destruct Hok as (((((((Hd & ?) & ?) & ?) & Hm) & ?) & Hs) & ?).
  rewrite forallb_elem_of in Hm. rewrite forallb_elem_of in Hs.
  repeat split; try lia.
  - unfold directions. by destruct (direction_count P4_TO_P8 bt).
  - intros p Hp. specialize (Hm p). rewrite elem_of_seqZ in Hm. lia.
  - specialize (Hs s). rewrite elem_of_seqZ in Hs. lia.
  - specialize (Hs s). rewrite elem_of_seqZ in Hs. lia.
Qed.

Lemma off_mono i j : 0 ≤ i → i ≤ j → j ≤ mpisize p4est → off i ≤ off j.
Proof.
  intros Hi Hij Hj. destruct rok_facts as (_ & _ & _ & Hm & _).
  replace j with (i + Z.of_nat (Z.to_nat (j - i))) in * by lia.
  induction (Z.to_nat (j - i)) as [|n IH]; [by rewrite Z.add_0_r|].
  etransitivity; [apply IH; lia|].
  replace (i + Z.of_nat (Datatypes.S n)) with (i + Z.of_nat n + 1) by lia.
  apply Hm. lia.
Qed.

Lemma load_offset p :
  0 ≤ p ≤ mpisize p4est → load (mirror_proc_offsets ghost) p = Some (off p).
Proof.
  intros Hp. destruct rok_facts as (_ & Hn & _).
  apply load_default. lia.
Qed.

(** The loop over the neighbors of one direction. *)
Lemma mirror_neighbors_tab (f : Z → Z) proc s nbs :
  0 ≤ s < M →
  mirror_neighbors mesh L G proc s nbs (tab f M)
  = Some (tab (λ j, if (j =? s) && existsb (half proc) nbs then 1 else f j) M).
Proof.
  intros Hs. destruct rok_facts as (_ & _ & _ & _ & _ & _ & Hg).
  revert f. induction nbs as [|nb nbs IH]; intros f; simpl.
  - f_equal. apply tab_ext. intros j _. by rewrite andb_false_r.
  - unfold remote_half_size at 1.
    destruct ((L <=? nb_qid nb) && (nb_qid nb <? L + G)) eqn:Hin; simpl.
    + apply andb_true_iff in Hin as [H1 H2].
      rewrite (load_default (ghost_to_proc mesh) (nb_qid nb - L) 0) by lia.
      simpl.
      destruct (default 0 (load (ghost_to_proc mesh) (nb_qid nb - L)) =? proc);
        simpl.
      * destruct (nb_enc nb <? 0); simpl.
        -- rewrite store_tab by done. simpl. rewrite IH. f_equal.
           apply tab_ext. intros j _.
           destruct (j =? s); simpl; [|done].
           by destruct (existsb (half proc) nbs).
        -- apply IH.
      * apply IH.
    + apply IH.
Qed.

(** The loop over the directions of one mirror. *)
Lemma mirror_directions_tab (f : Z → Z) proc s mirror dirs :
  0 ≤ s < M →
  foldM (λ mpv dir,
           mirror_neighbors mesh L G proc s
             (p4est_mesh_get_neighbors p4est ghost mesh mirror dir) mpv)
        dirs (tab f M)
  = Some (tab (λ j, if (j =? s)
                       && existsb (λ dir, existsb (half proc)
                                            (mesh_neighbors mesh mirror dir))
                            dirs
                    then 1 else f j) M).
Proof.
  intros Hs. revert f. induction dirs as [|dir dirs IH]; intros f; simpl.
  - f_equal. apply tab_ext. intros j _. by rewrite andb_false_r.
  - unfold p4est_mesh_get_neighbors at 1.
    rewrite mirror_neighbors_tab by done. simpl. rewrite IH. f_equal.
    apply tab_ext. intros j _.
    destruct (j =? s); simpl; [|done].
    unfold p4est_mesh_get_neighbors.
    by destruct (existsb (half proc) (mesh_neighbors mesh mirror dir)),
         (existsb _ dirs).
Qed.

(** One mirror slot. *)
Lemma resolve_mirror_tab (f : Z → Z) proc s :
  0 ≤ s < M →
  resolve_mirror p4est ghost mesh vq imax proc (tab f M) s
  = Some (tab (λ j, if (j =? s) && fires proc s then 1 else f j) M).
Proof.
  intros Hs. destruct rok_facts as (_ & _ & _ & _ & Hq & Hf & _).
  unfold resolve_mirror.
  rewrite (load_default (mirror_qid mesh) s 0) by lia. simpl.
  fold (mirror_of mesh s).
  rewrite (load_default (virtual_qflags vq) (mirror_of mesh s) 0)
    by (apply Hf; lia).
  simpl. fold (mirror_flag mesh vq s). unfold slot_fires.
  destruct (mirror_flag mesh vq s =? 0); simpl.
  - f_equal. apply tab_ext. intros j _. by rewrite andb_false_r.
  - by rewrite mirror_directions_tab.
Qed.

(** All slots of one rank. *)
Lemma resolve_proc_tab (f : Z → Z) proc :
  0 ≤ proc < mpisize p4est →
  resolve_proc p4est ghost mesh vq imax (tab f M) proc
  = Some (tab (λ j, if slot_of ghost proc j && fires proc j then 1 else f j)
              M).
Proof.
  intros Hp. destruct rok_facts as (_ & _ & H0 & _).
  pose proof (off_mono 0 proc ltac:(lia) ltac:(lia) ltac:(lia)).
  pose proof (off_mono proc (proc + 1) ltac:(lia) ltac:(lia) ltac:(lia)).
  pose proof (off_mono (proc + 1) (mpisize p4est)
                ltac:(lia) ltac:(lia) ltac:(lia)).
  unfold resolve_proc. rewrite !load_offset by lia. simpl.
  pose (st := λ k, tab (λ j, if (off proc <=? j) && (j <? k) && fires proc j
                             then 1 else f j) M).
  replace (tab f M) with (st (off proc)).
  2:{ unfold st. apply tab_ext. intros j _. split_tests; done. }
  rewrite (foldM_closed_from _ st).
  - f_equal. unfold st, slot_of. apply tab_ext. intros j _.
    replace (off proc + Z.max 0 (off (proc + 1) - off proc))
      with (off (proc + 1)) by lia.
    done.
  - intros k Hk. unfold st. rewrite resolve_mirror_tab by lia.
    f_equal. apply tab_ext. intros j _.
    destruct (Z.eqb_spec j k) as [->|Hne]; simpl.
    + destruct (fires proc k); split_tests; done.
    + split_tests; done.
Qed.

(** The resolver returns, and its array is [resolved]. *)
Lemma ghost_new_closed :
  p4est_virtual_ghost_new P4_TO_P8 p4est ghost mesh vq bt
  = Some {| ghost_btype := bt;
            mirror_proc_virtuals :=
              tab (resolved P4_TO_P8 ghost mesh vq bt (mpisize p4est)) M |}.
Proof.
  destruct rok_facts as (Hd & Hn & _).
  unfold p4est_virtual_ghost_new.
  rewrite load_offset by lia. simpl. rewrite Hd. simpl.
  rewrite alloc_filled_tab.
  rewrite (foldM_closed _ (λ k, tab (resolved P4_TO_P8 ghost mesh vq bt k) M));
    [done|lia|].
  intros p Hp. rewrite resolve_proc_tab by done. f_equal.
  apply tab_ext. intros j _. unfold resolved.
  rewrite existsb_seqZ_succ by lia.
  by destruct (existsb _ (seqZ 0 p)), (slot_of ghost p j && fires p j).
Qed.

Lemma slot_unique p p' s :
  0 ≤ p < mpisize p4est → 0 ≤ p' < mpisize p4est →
  slot_of ghost p s = true → slot_of ghost p' s = true → p = p'.
Proof.
  unfold slot_of. rewrite !andb_true_iff. intros Hp Hp' [H1 H2] [H3 H4].
  destruct (Z.lt_trichotomy p p') as [Hlt|[Heq|Hgt]]; [|done|].
  - pose proof (off_mono (p + 1) p' ltac:(lia) ltac:(lia) ltac:(lia)). lia.
  - pose proof (off_mono (p' + 1) p ltac:(lia) ltac:(lia) ltac:(lia)). lia.
Qed.

Lemma half_iff proc nb :
  half proc nb = true ↔
  L ≤ nb_qid nb < L + G
  ∧ load (ghost_to_proc mesh) (nb_qid nb - L) = Some proc
  ∧ nb_enc nb < 0.
Proof.
  destruct rok_facts as (_ & _ & _ & _ & _ & _ & Hg).
  unfold remote_half_size. rewrite !andb_true_iff. split.
  - intros [[[H1 H2] H3] H4].
    rewrite (load_default (ghost_to_proc mesh) (nb_qid nb - L) 0) in * by lia.
    simpl in H3. apply Z.eqb_eq in H3. rewrite H3. repeat split; lia.
  - intros (H1 & -> & H3). simpl. rewrite Z.eqb_refl. repeat split; lia.
Qed.

(** A slot belongs to one rank, so the scan over the ranks reduces to the
    test of that rank. *)
Lemma resolved_slot p s :
  0 ≤ p < mpisize p4est → off p ≤ s < off (p + 1) →
  resolved P4_TO_P8 ghost mesh vq bt (mpisize p4est) s
  = if fires p s then 1 else 0.
Proof.
  intros Hp Hs.
  assert (Hslot : slot_of ghost p s = true).
  { unfold slot_of. apply andb_true_iff. lia. }
  unfold resolved. destruct (fires p s) eqn:Hfire.
  - replace (existsb _ _) with true; [done|]. symmetry.
    apply existsb_elem_of. exists p. split; [apply elem_of_seqZ; lia|].
    by rewrite Hslot, Hfire.
  - replace (existsb _ _) with false; [done|]. symmetry.
    apply not_true_is_false. intros Hex.
    apply existsb_elem_of in Hex as (p' & Hp' & Hex).
    apply elem_of_seqZ in Hp'. apply andb_true_iff in Hex as [Hs' Hf'].
    assert (p = p') as <- by (apply (slot_unique p p' s); [lia|lia|done|done]).
    congruence.
Qed.

(** The test of one rank on one slot, spelled out. *)
Lemma fires_iff p s :
  fires p s = true ↔
  mirror_flag mesh vq s ≠ 0
  ∧ ∃ dir nb,
      0 ≤ dir < imax
      ∧ nb ∈ mesh_neighbors mesh (mirror_of mesh s) dir
      ∧ L ≤ nb_qid nb < L + G
      ∧ load (ghost_to_proc mesh) (nb_qid nb - L) = Some p
      ∧ nb_enc nb < 0.
Proof.
  unfold slot_fires. rewrite andb_true_iff, negb_true_iff, Z.eqb_neq.
  rewrite existsb_elem_of. split.
  - intros [Hflag (dir & Hdir & Hex)].
    apply existsb_elem_of in Hex as (nb & Hnb & Hh).
    apply elem_of_seqZ in Hdir. apply half_iff in Hh.
    split; [done|]. exists dir, nb. split; [lia|]. by split.
  - intros [Hflag (dir & nb & Hdir & Hnb & Hh)]. split; [done|].
    exists dir. split; [apply elem_of_seqZ; lia|].
    apply existsb_elem_of. exists nb. split; [done|].
    by apply half_iff.
Qed.

(** X17.  The contract the resolver meets as it is written: the slot of a
    mirror sent to rank [p] holds 1 exactly when the flag of the mirror is
    not 0 (so also when it is -1) and a ghost neighbor owned by [p] has a
    negative encoding; it holds 0 otherwise. *)
Theorem mirror_resolver_as_written :
  ∃ vg,
    p4est_virtual_ghost_new P4_TO_P8 p4est ghost mesh vq bt = Some vg
    ∧ ∀ p s, 0 ≤ p < mpisize p4est → off p ≤ s < off (p + 1) →
        ∃ mirror flag v,
          load (mirror_qid mesh) s = Some mirror
          ∧ load (virtual_qflags vq) mirror = Some flag
          ∧ load (mirror_proc_virtuals vg) s = Some v
          ∧ (v = 1 ∨ v = 0)
          ∧ (v = 1 ↔
             flag ≠ 0
             ∧ ∃ dir nb,
                 0 ≤ dir < imax
                 ∧ nb ∈ p4est_mesh_get_neighbors p4est ghost mesh mirror dir
                 ∧ L ≤ nb_qid nb < L + G
                 ∧ load (ghost_to_proc mesh) (nb_qid nb - L) = Some p
                 ∧ nb_enc nb < 0).
Proof.
  eexists. split; [apply ghost_new_closed|].
  intros p s Hp Hs. cbn [mirror_proc_virtuals].
  destruct rok_facts as (_ & _ & H0 & _ & Hq & Hf & _).
  pose proof (off_mono 0 p ltac:(lia) ltac:(lia) ltac:(lia)).
  pose proof (off_mono (p + 1) (mpisize p4est)
                ltac:(lia) ltac:(lia) ltac:(lia)).
  exists (mirror_of mesh s), (mirror_flag mesh vq s),
    (resolved P4_TO_P8 ghost mesh vq bt (mpisize p4est) s).
  split; [apply load_default; lia|].
  split; [apply load_default, Hf; lia|].
  split; [apply load_tab; lia|].
  rewrite (resolved_slot p s Hp Hs).
  split; [destruct (fires p s); auto|].
  unfold p4est_mesh_get_neighbors. rewrite <- (fires_iff p s).
  destruct (fires p s); split; intros; try done; lia.
Qed.


End ResolverProofs.

(** ** The mirror resolver *)

(** C10.  The memory report of a mirror assignment is 0 bytes whatever
    the structure holds: the [mirror_proc_virtuals] array is not counted. *)
Theorem ghost_memory_used_zero (virtual_ghost : p4est_virtual_ghost_t) :
  p4est_virtual_ghost_memory_used virtual_ghost = 0.
Proof. reflexivity. Qed.

(** C1, at the two-rank seam.  The mesh meets the contracts of the
    constructor and of the resolver.  The constructor gives the only
    mirror the token 0; the mirror has a ghost neighbor owned by rank 1
    with a negative encoding, so the contract asks for
    [mirror_proc_virtuals[0] = 1]; the resolver reads the token 0 as
    false, skips the mirror and leaves the slot at 0. *)
Lemma mirror_first_host_skipped :
  ∃ vq vg,
    mesh_ok false 29 Seam.p4est Seam.ghost Seam.mesh P4EST_CONNECT_FACE = true
    ∧ resolver_ok false Seam.ghost Seam.mesh vq P4EST_CONNECT_FACE 2 = true
    ∧ p4est_virtual_new_ext false 29 Seam.p4est Seam.ghost Seam.mesh
        P4EST_CONNECT_FACE false = Some vq
    ∧ p4est_virtual_ghost_new false Seam.p4est Seam.ghost Seam.mesh vq
        P4EST_CONNECT_FACE = Some vg
    ∧ load (mirror_proc_offsets Seam.ghost) 1 = Some 0
    ∧ load (mirror_proc_offsets Seam.ghost) 2 = Some 1
    ∧ load (mirror_qid Seam.mesh) 0 = Some 0
    ∧ load (virtual_qflags vq) 0 = Some 0
    ∧ (∃ nb,
         nb ∈ p4est_mesh_get_neighbors Seam.p4est Seam.ghost Seam.mesh 0 0
         ∧ 1 ≤ nb_qid nb < 1 + 2
         ∧ load (ghost_to_proc Seam.mesh) (nb_qid nb - 1) = Some 1
         ∧ nb_enc nb < 0)
    ∧ load (mirror_proc_virtuals vg) 0 = Some 0.
Proof.
  exists (Seam.hosted 0). eexists.
  split; [vm_compute; reflexivity|]. split; [vm_compute; reflexivity|].
  split; [vm_compute; reflexivity|]. split; [vm_compute; reflexivity|].
  repeat (split; [reflexivity|]).
  split; [|reflexivity].
  eexists. split; [apply list_elem_of_here|].
  simpl. repeat split; try lia; reflexivity.
Qed.

(** The other side of the same test.  A mirror without virtuals carries
    the flag -1, which is true as a C condition: its neighbors are scanned
    all the same (quadrant 1 of the mixed fixture; the scan finds nothing
    there, the slot stays 0). *)
Lemma mirror_without_virtuals_scanned :
  ∃ vq,
    p4est_virtual_new_ext false 29 Mixed.p4est Mixed.ghost Mixed.mesh
      P4EST_CONNECT_FACE false = Some vq
    ∧ load (virtual_qflags vq) 1 = Some (-1)
    ∧ resolve_mirror Mixed.p4est Mixed.ghost Mixed.mesh vq 4 1 [0; 0] 0
      = foldM (λ mpv dir,
                 mirror_neighbors Mixed.mesh 4 2 1 0
                   (p4est_mesh_get_neighbors Mixed.p4est Mixed.ghost
                      Mixed.mesh 1 dir) mpv)
              (seqZ 0 4) [0; 0].
Proof.
  eexists. split; [vm_compute; reflexivity|].
  split; reflexivity.
Qed.

(** C2.  Two structures for the seam mesh that differ in the token of
    the only host alone, 0 against 1: both tokens are nonnegative, yet the
    resolver answers 0 for the first and 1 for the second.  The first
    structure is the one the constructor returns. *)
Lemma mirror_token_observed :
  p4est_virtual_new_ext false 29 Seam.p4est Seam.ghost Seam.mesh
    P4EST_CONNECT_FACE false = Some (Seam.hosted 0)
  ∧ (∀ q, flag_set (virtual_qflags (Seam.hosted 0)) q
          = flag_set (virtual_qflags (Seam.hosted 1)) q)
  ∧ p4est_virtual_ghost_new false Seam.p4est Seam.ghost Seam.mesh
      (Seam.hosted 0) P4EST_CONNECT_FACE
    = Some {| ghost_btype := P4EST_CONNECT_FACE;
              mirror_proc_virtuals := [0] |}
  ∧ p4est_virtual_ghost_new false Seam.p4est Seam.ghost Seam.mesh
      (Seam.hosted 1) P4EST_CONNECT_FACE
    = Some {| ghost_btype := P4EST_CONNECT_FACE;
              mirror_proc_virtuals := [1] |}.
Proof.
  split; [vm_compute; reflexivity|]. split; [|split; vm_compute; reflexivity].
  intros q. unfold flag_set, load. simpl.
  destruct (0 <=? q); [|done].
  by destruct (Z.to_nat q) as [|[|n]].
Qed.

(** C6 in the words of the specification fails on the mixed fixture,
    whose quadrants have the levels 1, 2, 2, 1 and whose hosts are the
    quadrants 0 and 3.  The four virtual children of quadrant 0 live at
    level 2, so the virtual counter of level 2 is 1 when quadrant 1
    (level 2) is reached and [qreal_offset[1]] is 4; P4 counts earlier
    quadrants of level 2 only and gives 0, however the virtual level is
    read.  Quadrant 3 (level 1) follows the host 0 of its own level:
    [qreal_offset[3]] is 1, and P4 gives 5 when it counts the hosts of
    the level of the quadrant. *)
Lemma offset_formula_as_worded_fails :
  ∃ vq ll,
    p4est_virtual_new_ext false 29 Mixed.p4est Mixed.ghost Mixed.mesh
      P4EST_CONNECT_FACE true = Some vq
    ∧ level_lists vq = Some ll
    ∧ (∀ vlevel, ¬ P4_offset_formula false Mixed.p4est vq vlevel)
    ∧ load (quad_qreal_offset ll) 1 = Some 4
    ∧ (∀ vlevel,
         P4_real_offset false (flag_set (virtual_qflags vq))
           (quadrant_level Mixed.p4est) vlevel 1 = 0)
    ∧ load (quad_qreal_offset ll) 3 = Some 1
    ∧ P4_real_offset false (flag_set (virtual_qflags vq))
        (quadrant_level Mixed.p4est) (quadrant_level Mixed.p4est) 3 = 5.
Proof.
  eexists. eexists. split; [vm_compute; reflexivity|].
  split; [reflexivity|].
  assert (Hone : ∀ vlevel,
            P4_real_offset false
              (flag_set (virtual_qflags
                 (built false 29 Mixed.p4est Mixed.ghost Mixed.mesh
                    P4EST_CONNECT_FACE true)))
              (quadrant_level Mixed.p4est) vlevel 1 = 0)
    by (intros vlevel; vm_compute; reflexivity).
  split; [|split; [by vm_compute|split; [exact Hone|by vm_compute]]].
  intros vlevel (ll & Hll & Hall).
  specialize (Hall 1 ltac:(simpl; lia)). rewrite Hone in Hall.
  vm_compute in Hll. injection Hll as <-.
  vm_compute in Hall. discriminate Hall.
Qed.

(** ** The properties on the mixed fixture *)

Lemma modes_agree_witness :
  mesh_ok false 29 Mixed.p4est Mixed.ghost Mixed.mesh P4EST_CONNECT_FACE = true
  ∧ ∃ vi vb,
      p4est_virtual_new_ext false 29 Mixed.p4est Mixed.ghost Mixed.mesh
        P4EST_CONNECT_FACE true = Some vi
      ∧ p4est_virtual_new_ext false 29 Mixed.p4est Mixed.ghost
          (without_parallel_boundary Mixed.mesh) P4EST_CONNECT_FACE true
        = Some vb
      ∧ virtual_qflags vi = virtual_qflags vb
      ∧ quad_qreal_offset <$> level_lists vi
        = quad_qreal_offset <$> level_lists vb
      ∧ quad_qvirtual_offset <$> level_lists vi
        = quad_qvirtual_offset <$> level_lists vb
      ∧ virtual_qlevels <$> level_lists vi = virtual_qlevels <$> level_lists vb
      ∧ ∀ g, 0 ≤ g < 2 →
          flag_set (virtual_gflags vi) g ≠ flag_set (virtual_gflags vb) g →
          flag_set (virtual_gflags vb) g = true
          ∧ ∃ q dir nb,
              0 ≤ q < 4 ∧ boundary_routed Mixed.mesh q = false
              ∧ 0 ≤ dir < directions false P4EST_CONNECT_FACE
              ∧ nb ∈ p4est_mesh_get_neighbors Mixed.p4est Mixed.ghost
                       Mixed.mesh q dir
              ∧ nb_qid nb = 4 + g
              ∧ ghost_level Mixed.ghost g < quadrant_level Mixed.p4est q.
Proof.
  split; [reflexivity|].
  apply (modes_agree false 29 Mixed.p4est Mixed.ghost Mixed.mesh
           P4EST_CONNECT_FACE true).
  reflexivity.
Defined.

Lemma level_lists_faithful_witness :
  mesh_ok false 29 Mixed.p4est Mixed.ghost Mixed.mesh P4EST_CONNECT_FACE = true
  ∧ ∃ vq ll,
      p4est_virtual_new_ext false 29 Mixed.p4est Mixed.ghost Mixed.mesh
        P4EST_CONNECT_FACE true = Some vq
      ∧ level_lists vq = Some ll
      ∧ ∀ l, 0 ≤ l ≤ 29 →
          load (virtual_qlevels ll) l
          = Some (List.filter
                    (λ q, (quadrant_level Mixed.p4est q =? l - 1)
                          && flag_set (virtual_qflags vq) q)
                    (seqZ 0 4))
          ∧ load (virtual_glevels ll) l
            = Some (List.filter
                      (λ g, (ghost_level Mixed.ghost g =? l - 1)
                            && flag_set (virtual_gflags vq) g)
                      (seqZ 0 2))
          ∧ (l = 0 → load (virtual_qlevels ll) l = Some []
                     ∧ load (virtual_glevels ll) l = Some []).
Proof.
  split; [reflexivity|].
  apply (level_lists_faithful false 29 Mixed.p4est Mixed.ghost Mixed.mesh
           P4EST_CONNECT_FACE).
  reflexivity.
Defined.

Lemma offset_formula_witness :
  mesh_ok false 29 Mixed.p4est Mixed.ghost Mixed.mesh P4EST_CONNECT_FACE = true
  ∧ ∃ vq ll,
      p4est_virtual_new_ext false 29 Mixed.p4est Mixed.ghost Mixed.mesh
        P4EST_CONNECT_FACE true = Some vq
      ∧ level_lists vq = Some ll
      ∧ load (quad_qreal_offset ll) 1 = Some (0 + 4 * 1)
      ∧ load (quad_qvirtual_offset ll) 3 = Some (2 + 4 * 1)
      ∧ load (quad_greal_offset ll) 1 = Some (0 + 4 * 1)
      ∧ load (quad_gvirtual_offset ll) 0 = Some (0 + 4 * 0).
Proof.
  split; [reflexivity|].
  destruct (offset_formula false 29 Mixed.p4est Mixed.ghost Mixed.mesh
              P4EST_CONNECT_FACE eq_refl)
    as (vq & ll & Hnew & Hll & Hq & Hg).
  exists vq, ll. split; [exact Hnew|]. split; [exact Hll|].
  assert (Hflags : virtual_qflags vq = [0; -1; -1; 1]
                   ∧ virtual_gflags vq = [0; -1]).
  { vm_compute in Hnew. injection Hnew as <-. by split. }
  destruct Hflags as [Hqf Hgf].
  destruct (Hq 1 ltac:(simpl; lia)) as (_ & H1 & _).
  destruct (Hq 3 ltac:(simpl; lia)) as (_ & _ & H3).
  destruct (Hg 1 ltac:(simpl; lia)) as (H4 & _).
  destruct (Hg 0 ltac:(simpl; lia)) as (_ & H5).
  rewrite Hqf in H1, H3. rewrite Hgf in H4, H5.
  repeat split; [exact H1|exact H3|exact H4|exact H5].
Defined.

Lemma memory_accounting_witness :
  mesh_ok false 29 Mixed.p4est Mixed.ghost Mixed.mesh P4EST_CONNECT_FACE = true
  ∧ 0 ≤ 29
  ∧ ∃ vq,
      p4est_virtual_new_ext false 29 Mixed.p4est Mixed.ghost Mixed.mesh
        P4EST_CONNECT_FACE true = Some vq
      ∧ p4est_virtual_memory_used 29 4 32 80 Mixed.sc_bytes vq
        = Some (size_t (owned_bytes 4 32 80 Mixed.sc_bytes vq)).
Proof.
  split; [reflexivity|]. split; [lia|].
  destruct (memory_accounting 4 32 80 Mixed.sc_bytes false 29 Mixed.p4est
              Mixed.ghost Mixed.mesh P4EST_CONNECT_FACE true eq_refl
              ltac:(lia))
    as (vq & Hnew & Hmem & _).
  exists vq. split; [exact Hnew|exact Hmem].
Defined.

(** * Further properties of the code *)

(** ** The neighbor tables *)

Ltac enum4 c :=
  let H := fresh in
  assert (H : c = 0 ∨ c = 1 ∨ c = 2 ∨ c = 3) by lia;
  destruct H as [-> | [-> | [-> | ->]]].

(** X1.  Across a face that lies inside the parent the table names the sibling
    on the other side, and the opposite face of that sibling leads back.
    The entry is a sibling (below 4) exactly when the child does not touch
    that face of its parent. *)
Theorem face_table_inside (c f : Z) :
  0 ≤ c < 4 → 0 ≤ f < 4 →
  ∃ v,
    table_entry p4est_face_virtual_neighbors_inside c f = Some v
    ∧ (v < 4 ↔ side_bit c (f / 2) ≠ f mod 2)
    ∧ (v < 4 →
       v = Z.lxor c (Z.shiftl 1 (f / 2))
       ∧ table_entry p4est_face_virtual_neighbors_inside v (Z.lxor f 1)
         = Some c).
Proof.
  intros Hc Hf. enum4 c; enum4 f; eexists;
    (split; [reflexivity|]); vm_compute; repeat split; intros;
    try done; try lia.
Qed.

Lemma face_table_inside_witness :
  0 ≤ 0 < 4 ∧ 0 ≤ 1 < 4
  ∧ ∃ v,
      table_entry p4est_face_virtual_neighbors_inside 0 1 = Some v
      ∧ (v < 4 ↔ side_bit 0 (1 / 2) ≠ 1 mod 2)
      ∧ (v < 4 →
         v = Z.lxor 0 (Z.shiftl 1 (1 / 2))
         ∧ table_entry p4est_face_virtual_neighbors_inside v (Z.lxor 1 1)
           = Some 0).
Proof.
  split; [lia|]. split; [lia|].
  apply (face_table_inside 0 1); lia.
Defined.

(** X2.  Across a face of the parent the table names an outside neighbor:
    [4 + f] for the first child on face [f], [8 + f] for the second; so
    the eight outside entries are the numbers 4 to 11, each once. *)
Theorem face_table_outside (c f : Z) :
  0 ≤ c < 4 → 0 ≤ f < 4 →
  side_bit c (f / 2) = f mod 2 →
  table_entry p4est_face_virtual_neighbors_inside c f
  = Some (4 + f + 4 * side_bit c (1 - f / 2)).
Proof.
  intros Hc Hf. enum4 c; enum4 f; vm_compute; intros; try done.
Qed.

Lemma face_table_outside_witness :
  0 ≤ 3 < 4 ∧ 0 ≤ 1 < 4 ∧ side_bit 3 (1 / 2) = 1 mod 2
  ∧ table_entry p4est_face_virtual_neighbors_inside 3 1
    = Some (4 + 1 + 4 * side_bit 3 (1 - 1 / 2)).
Proof.
  split; [lia|]. split; [lia|]. split; [reflexivity|].
  apply (face_table_outside 3 1); [lia|lia|reflexivity].
Defined.

(** X3.  The corner table never repeats a number: its sixteen entries are the
    numbers 0 to 15, so child and corner can be read back from the
    entry. *)
Theorem corner_table_injective (c k c' k' : Z) :
  0 ≤ c < 4 → 0 ≤ k < 4 → 0 ≤ c' < 4 → 0 ≤ k' < 4 →
  table_entry p4est_corner_virtual_neighbors_inside c k
  = table_entry p4est_corner_virtual_neighbors_inside c' k' →
  c = c' ∧ k = k'
  ∧ ∃ v, table_entry p4est_corner_virtual_neighbors_inside c k = Some v
         ∧ 0 ≤ v < 16.
Proof.
  intros Hc Hk Hc' Hk'.
  enum4 c; enum4 k; enum4 c'; enum4 k'; intros H;
    first [ vm_compute in H; discriminate H
          | split; [reflexivity|]; split; [reflexivity|];
            eexists; split; [reflexivity|lia] ].
Qed.

Lemma corner_table_injective_witness :
  0 ≤ 2 < 4 ∧ 0 ≤ 1 < 4
  ∧ table_entry p4est_corner_virtual_neighbors_inside 2 1
    = table_entry p4est_corner_virtual_neighbors_inside 2 1
  ∧ ∃ v, table_entry p4est_corner_virtual_neighbors_inside 2 1 = Some v
         ∧ 0 ≤ v < 16.
Proof.
  split; [lia|]. split; [lia|]. split; [reflexivity|].
  apply (corner_table_injective 2 1 2 1); (lia || reflexivity).
Defined.

(** X4.  The corner table agrees with the face table.  Towards the corner
    opposite to its own position a child finds the diagonal sibling;
    towards its own corner it finds the outside corner neighbor
    [12 + c]; towards the two other corners one step stays inside the
    parent and one leaves it, and the entry is the face neighbor of the
    sibling reached by the inside step. *)
Theorem corner_table_composes (c k : Z) :
  0 ≤ c < 4 → 0 ≤ k < 4 →
  (k = 3 - c →
   table_entry p4est_corner_virtual_neighbors_inside c k = Some (3 - c))
  ∧ (k = c →
     table_entry p4est_corner_virtual_neighbors_inside c k = Some (12 + c))
  ∧ ∀ a, 0 ≤ a < 2 →
      side_bit c a ≠ side_bit k a →
      side_bit c (1 - a) = side_bit k (1 - a) →
      table_entry p4est_corner_virtual_neighbors_inside c k
      = table_entry p4est_face_virtual_neighbors_inside
          (Z.lxor c (Z.shiftl 1 a)) (2 * (1 - a) + side_bit k (1 - a)).
Proof.
  intros Hc Hk. enum4 c; enum4 k;
    (split; [intros; try lia; reflexivity|]);
    (split; [intros; try lia; reflexivity|]);
    intros a Ha; assert (a = 0 ∨ a = 1) as [-> | ->] by lia;
    vm_compute; intros; try done.
Qed.

Lemma corner_table_composes_witness :
  0 ≤ 0 < 4 ∧ 0 ≤ 1 < 4
  ∧ table_entry p4est_corner_virtual_neighbors_inside 0 1
    = table_entry p4est_face_virtual_neighbors_inside
        (Z.lxor 0 (Z.shiftl 1 0)) (2 * (1 - 0) + side_bit 1 (1 - 0)).
Proof.
  split; [lia|]. split; [lia|].
  apply (corner_table_composes 0 1 ltac:(lia) ltac:(lia)); [lia| |];
    vm_compute; congruence.
Defined.

(** ** The refinement callback of the quadrant test *)

(** X5.  [refine_fn] answers 0 or 1; it always refines up to level 2 and never
    beyond level 4; a quadrant it refuses stays refused when it gets
    deeper or moves to the right. *)
Theorem refine_fn_monotone (maxlevel x x' l l' : Z) :
  2 ≤ maxlevel → x ≤ x' → l ≤ l' →
  (refine_fn maxlevel x l = 0 ∨ refine_fn maxlevel x l = 1)
  ∧ (l ≤ 2 → refine_fn maxlevel x l = 1)
  ∧ (5 ≤ l → refine_fn maxlevel x l = 0)
  ∧ (refine_fn maxlevel x l' = 1 → refine_fn maxlevel x l = 1)
  ∧ (refine_fn maxlevel x' l = 1 → refine_fn maxlevel x l = 1).
Proof.
  intros Hm Hx Hl.
  assert (Hs : Z.shiftl 1 (maxlevel - 2) ≤ Z.shiftl 1 (maxlevel - 1)).
  { rewrite !Z.shiftl_1_l. apply Z.pow_le_mono_r; lia. }
  unfold refine_fn in *. repeat split; intros;
    repeat match goal with
      | H : context [ ?a <? ?b ] |- _ => destruct (Z.ltb_spec a b)
      | H : context [ ?a <=? ?b ] |- _ => destruct (Z.leb_spec a b)
      | |- context [ ?a <? ?b ] => destruct (Z.ltb_spec a b)
      | |- context [ ?a <=? ?b ] => destruct (Z.leb_spec a b)
      end; try lia; auto.
Qed.

Lemma refine_fn_monotone_witness :
  2 ≤ 30 ∧ 2 ^ 28 ≤ 2 ^ 29 ∧ 3 ≤ 4
  ∧ (refine_fn 30 (2 ^ 29) 4 = 1 → refine_fn 30 (2 ^ 28) 4 = 1)
  ∧ (refine_fn 30 (2 ^ 28) 4 = 1 → refine_fn 30 (2 ^ 28) 3 = 1).
Proof.
  split; [lia|]. split; [lia|]. split; [lia|].
  destruct (refine_fn_monotone 30 (2 ^ 28) (2 ^ 29) 3 4
              ltac:(lia) ltac:(lia) ltac:(lia))
    as (_ & _ & _ & H1 & _).
  destruct (refine_fn_monotone 30 (2 ^ 28) (2 ^ 29) 4 4
              ltac:(lia) ltac:(lia) ltac:(lia))
    as (_ & _ & _ & _ & H2).
  split; [exact H2|exact H1].
Defined.

(** ** More on the constructor *)

Lemma count_mono P k k' : 0 ≤ k → k ≤ k' → count P k ≤ count P k'.
Proof.
  intros Hk Hkk'. replace k' with (k + Z.of_nat (Z.to_nat (k' - k))) by lia.
  induction (Z.to_nat (k' - k)) as [|n IH]; [rewrite Z.add_0_r; lia|].
  replace (k + Z.of_nat (Datatypes.S n)) with (k + Z.of_nat n + 1) by lia.
  rewrite count_succ by lia. destruct (P _); lia.
Qed.

Lemma count_step P k k' :
  0 ≤ k → k < k' → P k = true → count P k + 1 ≤ count P k'.
Proof.
  intros Hk Hkk' HP. pose proof (count_mono P (k + 1) k' ltac:(lia) ltac:(lia)).
  rewrite count_succ, HP in H by lia. lia.
Qed.

(** The slots handed out at one level never overlap: a real quadrant
    takes one slot, a host takes a block of CHILDREN slots one level up,
    and whatever comes later starts behind. *)
Lemma layout_steps P4_TO_P8 (hostp : Z → bool) (lev : Z → Z) k q q' :
  0 ≤ q → q < q' → q' < k →
  (lev q = lev q' →
   real_offset P4_TO_P8 hostp lev k q + 1
   ≤ real_offset P4_TO_P8 hostp lev k q')
  ∧ (hostp q = true → lev q + 1 = lev q' →
     virtual_offset P4_TO_P8 hostp lev k q + P4EST_CHILDREN P4_TO_P8
     ≤ real_offset P4_TO_P8 hostp lev k q')
  ∧ (hostp q' = true → lev q = lev q' + 1 →
     real_offset P4_TO_P8 hostp lev k q + 1
     ≤ virtual_offset P4_TO_P8 hostp lev k q')
  ∧ (hostp q = true → hostp q' = true → lev q = lev q' →
     virtual_offset P4_TO_P8 hostp lev k q + P4EST_CHILDREN P4_TO_P8
     ≤ virtual_offset P4_TO_P8 hostp lev k q').
Proof.
  intros Hq Hqq' Hk.
  assert (HCH : 0 < P4EST_CHILDREN P4_TO_P8)
    by (unfold P4EST_CHILDREN; destruct P4_TO_P8; lia).
  unfold real_offset, virtual_offset, real_count, virt_count.
  destruct (Z.ltb_spec q k); [|lia]. destruct (Z.ltb_spec q' k); [|lia].
  repeat split.
  - intros Hl. rewrite <- Hl.
    pose proof (count_step (λ i, lev i =? lev q) q q' Hq Hqq'
                  (Z.eqb_refl _)).
    pose proof (count_mono (λ i, hostp i && (lev i + 1 =? lev q)) q q'
                  Hq ltac:(lia)).
    nia.
  - intros Hh Hl. rewrite Hh, <- Hl. simpl.
    pose proof (count_mono (λ i, lev i =? lev q + 1) q q' Hq ltac:(lia)).
    pose proof (count_step (λ i, hostp i && (lev i + 1 =? lev q + 1)) q q'
                  Hq Hqq') as Hs.
    cbv beta in Hs. rewrite Hh, Z.eqb_refl in Hs.
    specialize (Hs eq_refl). nia.
  - intros Hh Hl. rewrite Hh, <- Hl. simpl.
    pose proof (count_step (λ i, lev i =? lev q) q q' Hq Hqq'
                  (Z.eqb_refl _)).
    pose proof (count_mono (λ i, hostp i && (lev i + 1 =? lev q)) q q'
                  Hq ltac:(lia)).
    nia.
  - intros Hh Hh' Hl. rewrite Hh, Hh', <- Hl. simpl.
    pose proof (count_mono (λ i, lev i =? lev q + 1) q q' Hq ltac:(lia)).
    pose proof (count_step (λ i, hostp i && (lev i + 1 =? lev q + 1)) q q'
                  Hq Hqq') as Hs.
    cbv beta in Hs. rewrite Hh, Z.eqb_refl in Hs.
    specialize (Hs eq_refl). nia.
Qed.

Section MoreConstruction.

Variable P4_TO_P8 : bool.
Variable QMAX : Z.
Variable p4est : p4est_t.
Variable ghost : p4est_ghost_t.
Variable mesh : p4est_mesh_t.

Local Abbreviation L := (mesh_local_num_quadrants mesh).
Local Abbreviation G := (mesh_ghost_num_quadrants mesh).
Local Abbreviation CH := (P4EST_CHILDREN P4_TO_P8).
Local Abbreviation qlev := (quadrant_level p4est).
Local Abbreviation glev := (ghost_level ghost).
Local Abbreviation new_ext :=
  (p4est_virtual_new_ext P4_TO_P8 QMAX p4est ghost mesh).

(** X6.  The flags of the owned side are dense indices: a host carries the
    number of hosts before it (0 for the first one), every other
    quadrant carries -1. *)
Theorem owned_flags_dense (bt : p4est_connect_type_t) (cl : bool) :
  mesh_ok P4_TO_P8 QMAX p4est ghost mesh bt = true →
  ∃ vq,
    new_ext bt cl = Some vq
    ∧ ∀ q, 0 ≤ q < L →
        load (virtual_qflags vq) q
        = Some (if flag_set (virtual_qflags vq) q
                then count (flag_set (virtual_qflags vq)) q
                else -1).
Proof.
  intros Hok. eexists. split; [by apply new_ext_closed|].
  intros q Hq. rewrite built_qflag_set, built_qflag by done.
  destruct (has_finer_neighbor P4_TO_P8 p4est mesh bt q); [|done].
  f_equal. apply count_ext. intros i Hi.
  symmetry. apply built_qflag_set. lia.
Qed.

(** X7.  [p4est_virtual_new] builds no level lists, and the flags do not
    depend on whether level lists are built. *)
Theorem level_lists_keep_flags (bt : p4est_connect_type_t) :
  mesh_ok P4_TO_P8 QMAX p4est ghost mesh bt = true →
  ∃ v0 v1,
    p4est_virtual_new P4_TO_P8 QMAX p4est ghost mesh bt = Some v0
    ∧ new_ext bt true = Some v1
    ∧ level_lists v0 = None
    ∧ is_Some (level_lists v1)
    ∧ virtual_qflags v0 = virtual_qflags v1
    ∧ virtual_gflags v0 = virtual_gflags v1
    ∧ btype v0 = btype v1
    ∧ local_num_quadrants v0 = local_num_quadrants v1
    ∧ ghost_num_quadrants v0 = ghost_num_quadrants v1.
Proof.
  intros Hok. eexists. eexists.
  split; [by apply new_ext_closed|]. split; [by apply new_ext_closed|].
  split; [reflexivity|]. split; [by eexists|]. by repeat split.
Qed.

(** X8.  A connection type with more directions keeps every host and every
    marked ghost. *)
Theorem richer_connectivity_keeps_hosts (bt1 bt2 : p4est_connect_type_t)
  (cl : bool) :
  mesh_ok P4_TO_P8 QMAX p4est ghost mesh bt1 = true →
  mesh_ok P4_TO_P8 QMAX p4est ghost mesh bt2 = true →
  directions P4_TO_P8 bt1 ≤ directions P4_TO_P8 bt2 →
  ∃ v1 v2,
    new_ext bt1 cl = Some v1
    ∧ new_ext bt2 cl = Some v2
    ∧ (∀ q, 0 ≤ q < L →
         flag_set (virtual_qflags v1) q = true →
         flag_set (virtual_qflags v2) q = true)
    ∧ (∀ g, 0 ≤ g < G →
         flag_set (virtual_gflags v1) g = true →
         flag_set (virtual_gflags v2) g = true).
Proof.
  intros Hok1 Hok2 Hdir. eexists. eexists.
  split; [by apply new_ext_closed|]. split; [by apply new_ext_closed|].
  split.
  - intros q Hq. rewrite !built_qflag_set by done.
    rewrite !host_iff. intros (dir & nb & Hd & Hnb & Hlev).
    exists dir, nb. repeat split; try done; lia.
  - intros g Hg. rewrite !built_gflag_set by done.
    rewrite !marked_iff by done. intros (q & Hq & Hr & Hin).
    exists q. split; [done|]. split; [done|].
    apply elem_of_hits in Hin as (dir & nb & Hd & Hnb & Hc & ->).
    apply elem_of_hits. exists dir, nb. repeat split; try done; lia.
Qed.

Lemma built_level_lists (bt : p4est_connect_type_t) :
  let host := has_finer_neighbor P4_TO_P8 p4est mesh bt in
  let mark := marked P4_TO_P8 p4est mesh bt in
  level_lists (built P4_TO_P8 QMAX p4est ghost mesh bt true)
  = Some {| quad_qreal_offset := tab (real_offset P4_TO_P8 host qlev L) L;
            quad_qvirtual_offset :=
              tab (virtual_offset P4_TO_P8 host qlev L) L;
            quad_greal_offset := tab (real_offset P4_TO_P8 mark glev G) G;
            quad_gvirtual_offset :=
              tab (virtual_offset P4_TO_P8 mark glev G) G;
            virtual_qlevels := tab (level_list host qlev L) (QMAX + 1);
            virtual_glevels := tab (level_list mark glev G) (QMAX + 1) |}.
Proof. reflexivity. Qed.

(** X9.  The offsets of the owned side lay the quadrants of one level out
    without overlap, in ascending order of the quadrant index: a real
    quadrant owns the slot at [qreal_offset], a host owns the CHILDREN
    slots from [qvirtual_offset] on one level up, and a later quadrant of
    the same layout starts behind an earlier one. *)
Theorem owned_layout_disjoint (bt : p4est_connect_type_t) :
  mesh_ok P4_TO_P8 QMAX p4est ghost mesh bt = true →
  ∃ vq ll,
    new_ext bt true = Some vq
    ∧ level_lists vq = Some ll
    ∧ ∀ q q', 0 ≤ q → q < q' → q' < L →
        ∃ r r' v v',
          load (quad_qreal_offset ll) q = Some r
          ∧ load (quad_qreal_offset ll) q' = Some r'
          ∧ load (quad_qvirtual_offset ll) q = Some v
          ∧ load (quad_qvirtual_offset ll) q' = Some v'
          ∧ (qlev q = qlev q' → r + 1 ≤ r')
          ∧ (flag_set (virtual_qflags vq) q = true →
             qlev q + 1 = qlev q' → v + CH ≤ r')
          ∧ (flag_set (virtual_qflags vq) q' = true →
             qlev q = qlev q' + 1 → r + 1 ≤ v')
          ∧ (flag_set (virtual_qflags vq) q = true →
             flag_set (virtual_qflags vq) q' = true →
             qlev q = qlev q' → v + CH ≤ v').
Proof.
  intros Hok. eexists. eexists.
  split; [by apply new_ext_closed|]. split; [apply built_level_lists|].
  intros q q' Hq Hqq' Hq'.
  cbn [quad_qreal_offset quad_qvirtual_offset].
  rewrite !load_tab by lia. rewrite !built_qflag_set by lia.
  eexists _, _, _, _. do 4 (split; [reflexivity|]).
  by apply layout_steps.
Qed.

(** X10.  The same for the ghosts, with the offsets written by the second
    loop. *)
Theorem ghost_layout_disjoint (bt : p4est_connect_type_t) :
  mesh_ok P4_TO_P8 QMAX p4est ghost mesh bt = true →
  ∃ vq ll,
    new_ext bt true = Some vq
    ∧ level_lists vq = Some ll
    ∧ ∀ g g', 0 ≤ g → g < g' → g' < G →
        ∃ r r' v v',
          load (quad_greal_offset ll) g = Some r
          ∧ load (quad_greal_offset ll) g' = Some r'
          ∧ load (quad_gvirtual_offset ll) g = Some v
          ∧ load (quad_gvirtual_offset ll) g' = Some v'
          ∧ (glev g = glev g' → r + 1 ≤ r')
          ∧ (flag_set (virtual_gflags vq) g = true →
             glev g + 1 = glev g' → v + CH ≤ r')
          ∧ (flag_set (virtual_gflags vq) g' = true →
             glev g = glev g' + 1 → r + 1 ≤ v')
          ∧ (flag_set (virtual_gflags vq) g = true →
             flag_set (virtual_gflags vq) g' = true →
             glev g = glev g' → v + CH ≤ v').
Proof.
  intros Hok. eexists. eexists.
  split; [by apply new_ext_closed|]. split; [apply built_level_lists|].
  intros g g' Hg Hgg' Hg'.
  cbn [quad_greal_offset quad_gvirtual_offset].
  rewrite !load_tab by lia. rewrite !built_gflag_set by lia.
  eexists _, _, _, _. do 4 (split; [reflexivity|]).
  by apply layout_steps.
Qed.

(** X11.  The first loop writes each quadrant once and appends only: after [k]
    quadrants the flags below [k] are the final ones and the others are
    still -1, every ghost marked so far stays marked to the end, and each
    level list is a prefix of the final list. *)
Theorem classification_write_once (bt : p4est_connect_type_t) (k : Z) :
  mesh_ok P4_TO_P8 QMAX p4est ghost mesh bt = true →
  0 ≤ k → k ≤ L →
  ∃ st vq ll_k ll,
    foldM (classify_quadrant P4_TO_P8 p4est ghost mesh) (seqZ 0 k)
      (start_pass QMAX (allocate_virtual QMAX mesh bt true) (-1))
    = Some st
    ∧ new_ext bt true = Some vq
    ∧ level_lists (st_virtual st) = Some ll_k
    ∧ level_lists vq = Some ll
    ∧ (∀ q, 0 ≤ q < L →
         load (virtual_qflags (st_virtual st)) q
         = if q <? k then load (virtual_qflags vq) q else Some (-1))
    ∧ (∀ g, 0 ≤ g < G →
         load (virtual_gflags (st_virtual st)) g = Some 1 →
         flag_set (virtual_gflags vq) g = true)
    ∧ (∀ l, 0 ≤ l ≤ QMAX →
         ∃ now final,
           load (virtual_qlevels ll_k) l = Some now
           ∧ load (virtual_qlevels ll) l = Some final
           ∧ now `prefix_of` final).
Proof.
  intros Hok Hk HkL. eexists. eexists. eexists. eexists.
  split; [by apply pass1_closed|].
  split; [by apply new_ext_closed|].
  split; [reflexivity|]. split; [apply built_level_lists|].
  cbn [pass1_state st_virtual virtual_qflags virtual_gflags virtual_qlevels].
  split; [|split].
  - intros q Hq. rewrite built_qflag, load_tab by done.
    unfold qflag_at. destruct (Z.ltb_spec q k); simpl; [done|].
    done.
  - intros g Hg. rewrite load_tab, built_gflag_set by done.
    unfold gmark_at, marked, marks.
    destruct (existsb _ (seqZ 0 k)) eqn:Hm; [|done]. intros _.
    apply existsb_elem_of in Hm as (q & Hq & Hm).
    apply existsb_elem_of. exists q. split; [|done].
    apply elem_of_seqZ in Hq. apply elem_of_seqZ. lia.
  - intros l Hl. rewrite !load_tab by lia.
    eexists _, _. split; [reflexivity|]. split; [reflexivity|].
    unfold level_list.
    assert (Hs : seqZ 0 L = seqZ 0 k ++ seqZ (0 + k) (L - k)).
    { rewrite <- seqZ_app by lia. f_equal. lia. }
    rewrite Hs, List.filter_app. by eexists.
Qed.


End MoreConstruction.

(** ** The two classifiers on an arbitrary state *)

Ltac step_bind :=
  match goal with
  | |- context [ ?x ≫= _ ] =>
      lazymatch x with
      | _ ≫= _ => fail
      | _ => destruct x; simpl
      end
  end.

Ltac step_bind_in H :=
  match type of H with
  | context [ ?x ≫= _ ] =>
      lazymatch x with
      | _ ≫= _ => fail
      | _ => destruct x; simpl in H; try discriminate H
      end
  end.

(** The level indexing neither reads nor writes the ghost flags. *)
Lemma account_with_gflags P4_TO_P8 hv q lvl st gf :
  account_quadrant P4_TO_P8 hv q lvl (with_gflags st gf)
  = (λ s, with_gflags s gf) <$> account_quadrant P4_TO_P8 hv q lvl st.
Proof.
  destruct st as [[b lq gq qf g0 ll] r t l].
  unfold account_quadrant, with_gflags. simpl.
  destruct ll as [ll|], hv; simpl; repeat step_bind; reflexivity.
Qed.

Lemma account_keeps P4_TO_P8 hv q lvl st st' :
  account_quadrant P4_TO_P8 hv q lvl st = Some st' →
  virtual_gflags (st_virtual st') = virtual_gflags (st_virtual st)
  ∧ btype (st_virtual st') = btype (st_virtual st)
  ∧ local_num_quadrants (st_virtual st') = local_num_quadrants (st_virtual st)
  ∧ ghost_num_quadrants (st_virtual st') = ghost_num_quadrants (st_virtual st).
Proof.
  destruct st as [[b lq gq qf g0 ll] r t l].
  unfold account_quadrant. simpl. intros H.
  destruct ll as [ll|], hv; simpl in H; repeat step_bind_in H;
    injection H as <-; done.
Qed.

(** X12.  Interior mode never touches the ghost flags, nor the header of the
    structure. *)
Theorem inner_keeps_ghost_flags P4_TO_P8 p4est ghost mesh qid st st' :
  has_virtuals_inner P4_TO_P8 p4est ghost mesh qid st = Some st' →
  virtual_gflags (st_virtual st') = virtual_gflags (st_virtual st)
  ∧ btype (st_virtual st') = btype (st_virtual st)
  ∧ local_num_quadrants (st_virtual st') = local_num_quadrants (st_virtual st)
  ∧ ghost_num_quadrants (st_virtual st') = ghost_num_quadrants (st_virtual st).
Proof.
  unfold has_virtuals_inner. intros H.
  destruct (p4est_mesh_get_quadrant p4est mesh qid); simpl in H; [|done].
  destruct (direction_count P4_TO_P8 _); simpl in H; [|done].
  by apply account_keeps in H.
Qed.

Lemma load_store {A} (a a' : list A) i v j :
  store a i v = Some a' →
  load a' j = if j =? i then Some v else load a j.
Proof.
  intros H. pose proof (store_Some_inv _ _ _ _ H) as Hi.
  unfold store in H. destruct (_ && _); [|done]. injection H as <-.
  unfold load. destruct (Z.leb_spec 0 j);
    [|destruct (Z.eqb_spec j i); [lia|done]].
  destruct (Z.eqb_spec j i) as [->|Hne].
  - apply list_lookup_insert_eq. lia.
  - apply list_lookup_insert_ne. lia.
Qed.

Lemma mark_only (gf gf' : list Z) hits :
  foldM mark_ghost hits gf = Some gf' →
  length gf' = length gf
  ∧ ∀ g, load gf' g = load gf g ∨ (load gf' g = Some 1 ∧ g ∈ hits).
Proof.
  revert gf. induction hits as [|i hits IH]; intros gf H; simpl in H.
  - injection H as <-. split; [done|]. by left.
  - change (mark_ghost gf i) with (store gf i 1) in H.
    destruct (store gf i 1) as [gf1|] eqn:E; simpl in H; [|done].
    destruct (IH gf1 H) as [Hlen Hg].
    split; [rewrite Hlen; by eapply store_length|].
    intros g. destruct (Hg g) as [Hsame|[Hone Hin]].
    + rewrite (load_store _ _ _ _ g E) in Hsame.
      destruct (Z.eqb_spec g i) as [Heq|Hne]; [|by left].
      right. split; [done|]. rewrite Heq. apply list_elem_of_here.
    + right. split; [done|]. by apply list_elem_of_further.
Qed.

(** X13.  Boundary mode only ever marks: the ghost flags keep their length, a
    flag that changes becomes 1, and it belongs to a ghost that is a
    strictly coarser neighbor of the quadrant in one of the directions
    scanned. *)
Theorem boundary_marks_coarser_ghosts P4_TO_P8 p4est ghost mesh qid st st' :
  has_virtuals_parallel_boundary P4_TO_P8 p4est ghost mesh qid st = Some st' →
  length (virtual_gflags (st_virtual st'))
  = length (virtual_gflags (st_virtual st))
  ∧ ∀ g,
      load (virtual_gflags (st_virtual st')) g
      ≠ load (virtual_gflags (st_virtual st)) g →
      load (virtual_gflags (st_virtual st')) g = Some 1
      ∧ ∃ quad imax dir nb,
          p4est_mesh_get_quadrant p4est mesh qid = Some quad
          ∧ direction_count P4_TO_P8 (btype (st_virtual st)) = Some imax
          ∧ 0 ≤ dir < imax
          ∧ nb ∈ p4est_mesh_get_neighbors p4est ghost mesh qid dir
          ∧ nb_qid nb = local_num_quadrants (st_virtual st) + g
          ∧ level (nb_quad nb) < level quad.
Proof.
  unfold has_virtuals_parallel_boundary. intros H.
  destruct (p4est_mesh_get_quadrant p4est mesh qid) as [quad|];
    simpl in H; [|done].
  destruct (direction_count P4_TO_P8 _) as [imax|]; simpl in H; [|done].
  rewrite boundary_directions_spec in H.
  destruct (foldM mark_ghost _ _) as [gf'|] eqn:E; simpl in H; [|done].
  apply account_keeps in H as (Hgf & _). simpl in Hgf. rewrite Hgf.
  apply mark_only in E as [Hlen Hg]. split; [done|].
  intros g Hne. destruct (Hg g) as [Hsame|[Hone Hin]]; [done|].
  split; [done|]. exists quad, imax.
  apply list_elem_of_In, in_flat_map in Hin as (dir & Hdir & Hin).
  unfold ghost_hits_of in Hin.
  apply in_map_iff in Hin as (nb & Heq & Hnb).
  apply filter_In in Hnb as [Hnb Hc].
  apply list_elem_of_In, elem_of_seqZ in Hdir.
  unfold coarser_ghost in Hc. rewrite !andb_true_iff in Hc.
  exists dir, nb. split; [done|]. split; [done|]. split; [lia|].
  split; [by apply list_elem_of_In|]. lia.
Qed.

(** X14.  The two classifiers agree call by call: whenever boundary mode
    returns, interior mode returns the same state with the ghost flags
    left as they were. *)
Theorem inner_refines_boundary P4_TO_P8 p4est ghost mesh qid st sb :
  has_virtuals_parallel_boundary P4_TO_P8 p4est ghost mesh qid st = Some sb →
  has_virtuals_inner P4_TO_P8 p4est ghost mesh qid st
  = Some (with_gflags sb (virtual_gflags (st_virtual st))).
Proof.
  unfold has_virtuals_parallel_boundary, has_virtuals_inner. intros H.
  destruct (p4est_mesh_get_quadrant p4est mesh qid) as [quad|];
    simpl in *; [|done].
  destruct (direction_count P4_TO_P8 _) as [imax|]; simpl in *; [|done].
  rewrite boundary_directions_spec in H.
  destruct (foldM mark_ghost _ _) as [gf'|]; simpl in H; [|done].
  rewrite inner_directions_existsb.
  change (account_quadrant P4_TO_P8
            (existsb (λ dir, existsb (is_finer (level quad))
                               (mesh_neighbors mesh qid dir)) (seqZ 0 imax))
            qid (level quad) (with_gflags st gf') = Some sb) in H.
  rewrite account_with_gflags in H.
  destruct (account_quadrant _ _ _ _ st) as [s0|] eqn:E; simpl in H; [|done].
  injection H as <-. f_equal.
  apply account_keeps in E as (Hgf & _).
  destruct s0 as [[b lq gq qf g0 ll] r t l]. simpl in Hgf. subst g0.
  reflexivity.
Qed.

(** ** A connection type the build does not have *)

(** X15.  In the 2D build the edge connection type reaches
    [SC_ABORT_NOT_REACHED]: the constructor aborts at its first quadrant
    (its switch sits in the call made per quadrant), and the mirror
    resolver aborts before it resolves anything. *)
Theorem edge_connectivity_aborts_2d (QMAX : Z) (p4est : p4est_t)
  (ghost : p4est_ghost_t) (mesh : p4est_mesh_t) (vq : p4est_virtual_t)
  (cl : bool) :
  1 ≤ mesh_local_num_quadrants mesh →
  p4est_virtual_new_ext false QMAX p4est ghost mesh P8EST_CONNECT_EDGE cl
  = None
  ∧ p4est_virtual_ghost_new false p4est ghost mesh vq P8EST_CONNECT_EDGE
    = None.
Proof.
  intros HL. split.
  - unfold p4est_virtual_new_ext.
    rewrite (seqZ_cons 0 (mesh_local_num_quadrants mesh)) by lia.
    cbn [foldM].
    assert (classify_quadrant false p4est ghost mesh
              (start_pass QMAX
                 (allocate_virtual QMAX mesh P8EST_CONNECT_EDGE cl) (-1)) 0
            = None) as ->; [|done].
    unfold classify_quadrant, has_virtuals_inner,
      has_virtuals_parallel_boundary.
    destruct (parallel_boundary mesh) as [pb|];
      [destruct (load pb 0) as [b|]; simpl; [destruct (b =? -1)|done]|];
      by destruct (p4est_mesh_get_quadrant p4est mesh 0).
  - unfold p4est_virtual_ghost_new.
    by destruct (load (mirror_proc_offsets ghost) (mpisize p4est)).
Qed.

Lemma edge_connectivity_aborts_2d_witness :
  1 ≤ mesh_local_num_quadrants Mixed.mesh
  ∧ p4est_virtual_new_ext false 29 Mixed.p4est Mixed.ghost Mixed.mesh
      P8EST_CONNECT_EDGE true = None
  ∧ p4est_virtual_ghost_new false Mixed.p4est Mixed.ghost Mixed.mesh
      (Seam.hosted 0) P8EST_CONNECT_EDGE = None.
Proof.
  split; [simpl; lia|].
  apply (edge_connectivity_aborts_2d 29 Mixed.p4est Mixed.ghost Mixed.mesh
           (Seam.hosted 0) true).
  simpl; lia.
Defined.




(** ** More on the mirror resolver *)

Lemma load_Some_range {A} (a : list A) i x :
  load a i = Some x → 0 ≤ i < Z.of_nat (length a).
Proof.
  unfold load. destruct (Z.leb_spec 0 i); [|done].
  intros Hx. apply lookup_lt_Some in Hx. lia.
Qed.

(** X18.  The array of the resolver has one entry per mirror slot, and every
    entry is 0 or 1. *)
Theorem resolver_shape (P4_TO_P8 : bool) (p4est : p4est_t)
  (ghost : p4est_ghost_t) (mesh : p4est_mesh_t) (vq : p4est_virtual_t)
  (bt : p4est_connect_type_t) :
  resolver_ok P4_TO_P8 ghost mesh vq bt (mpisize p4est) = true →
  ∃ vg mirrors,
    p4est_virtual_ghost_new P4_TO_P8 p4est ghost mesh vq bt = Some vg
    ∧ ghost_btype vg = bt
    ∧ load (mirror_proc_offsets ghost) (mpisize p4est) = Some mirrors
    ∧ Z.of_nat (length (mirror_proc_virtuals vg)) = mirrors
    ∧ Forall (λ v, v = 0 ∨ v = 1) (mirror_proc_virtuals vg).
Proof.
  intros Hok.
  destruct (rok_facts _ _ _ _ _ _ Hok) as (_ & Hn & H0 & _).
  pose proof (off_mono _ _ _ _ _ _ Hok 0 (mpisize p4est)
                ltac:(lia) ltac:(lia) ltac:(lia)).
  eexists. eexists. split; [by apply ghost_new_closed|].
  split; [reflexivity|].
  split; [apply (load_offset _ _ _ _ _ _ Hok); lia|].
  cbn [mirror_proc_virtuals]. split.
  - rewrite length_tab. lia.
  - apply Forall_forall. intros v Hv. unfold tab in Hv.
    apply list_elem_of_fmap in Hv as (s & -> & _). unfold resolved.
    destruct (existsb _ _); auto.
Qed.

(** X19.  On the structure the constructor returns, with a resolver connection
    type that has no more directions than the one of the structure and
    with negative encodings on finer neighbors only, a slot is set for
    hosts only: the resolver scans the mirrors whose flag is -1, but it
    never reports them. *)
Theorem resolver_reports_hosts_only (P4_TO_P8 : bool) (QMAX : Z)
  (p4est : p4est_t) (ghost : p4est_ghost_t) (mesh : p4est_mesh_t)
  (bt btm : p4est_connect_type_t) (cl : bool) (vq : p4est_virtual_t) :
  mesh_ok P4_TO_P8 QMAX p4est ghost mesh bt = true →
  p4est_virtual_new_ext P4_TO_P8 QMAX p4est ghost mesh bt cl = Some vq →
  resolver_ok P4_TO_P8 ghost mesh vq btm (mpisize p4est) = true →
  encoding_ok P4_TO_P8 p4est mesh btm = true →
  directions P4_TO_P8 btm ≤ directions P4_TO_P8 bt →
  ∃ vg,
    p4est_virtual_ghost_new P4_TO_P8 p4est ghost mesh vq btm = Some vg
    ∧ ∀ p s, 0 ≤ p < mpisize p4est →
        offset_of ghost p ≤ s < offset_of ghost (p + 1) →
        load (mirror_proc_virtuals vg) s = Some 1 →
        ∃ mirror flag,
          load (mirror_qid mesh) s = Some mirror
          ∧ load (virtual_qflags vq) mirror = Some flag
          ∧ 1 ≤ flag.
Proof.
  intros Hok Hnew Hrok Henc Hdir.
  rewrite (new_ext_closed _ _ _ _ _ _ cl Hok) in Hnew.
  injection Hnew as <-.
  eexists. split; [by apply ghost_new_closed|].
  intros p s Hp Hs Hone. cbn [mirror_proc_virtuals] in Hone.
  destruct (rok_facts _ _ _ _ _ _ Hrok) as (_ & _ & H0 & _ & Hq & Hfl & _).
  pose proof (off_mono _ _ _ _ _ _ Hrok 0 p ltac:(lia) ltac:(lia) ltac:(lia)).
  pose proof (off_mono _ _ _ _ _ _ Hrok (p + 1) (mpisize p4est)
                ltac:(lia) ltac:(lia) ltac:(lia)).
  rewrite load_tab in Hone by lia. injection Hone as Hone.
  rewrite (resolved_slot _ _ _ _ _ _ Hrok p s Hp Hs) in Hone.
  destruct (slot_fires _ _ _ _ p s) eqn:Hfire; [clear Hone|discriminate Hone].
  apply (fires_iff _ _ _ _ _ _ Hrok) in Hfire
    as (Hflag & dir & nb & Hd & Hnb & _ & _ & Henc').
  set (mirror := mirror_of mesh s) in *.
  assert (Hm : load (mirror_qid mesh) s = Some mirror)
    by (apply load_default; lia).
  assert (Hf : load (virtual_qflags
                       (built P4_TO_P8 QMAX p4est ghost mesh bt cl)) mirror
               = Some (mirror_flag mesh
                         (built P4_TO_P8 QMAX p4est ghost mesh bt cl) s))
    by (apply load_default, Hfl; lia).
  set (flag := mirror_flag mesh _ s) in *.
  exists mirror, flag. split; [done|]. split; [done|].
  destruct (ok_counts _ _ _ _ _ _ Hok) as (HL & _).
  pose proof (load_Some_range _ _ _ Hf) as Hrange.
  cbn [built pass2_state st_virtual virtual_qflags] in Hrange.
  rewrite length_tab in Hrange.
  assert (Hfiner : quadrant_level p4est mirror < level (nb_quad nb)).
  { unfold encoding_ok in Henc. rewrite forallb_elem_of in Henc.
    specialize (Henc mirror). rewrite elem_of_seqZ in Henc.
    specialize (Henc ltac:(lia)). rewrite forallb_elem_of in Henc.
    specialize (Henc dir). rewrite elem_of_seqZ in Henc.
    specialize (Henc ltac:(lia)). rewrite forallb_elem_of in Henc.
    specialize (Henc nb Hnb).
    apply orb_true_iff in Henc as [Henc|Henc].
    - apply negb_true_iff, Z.ltb_ge in Henc. lia.
    - by apply Z.ltb_lt in Henc. }
  assert (Hhost : has_finer_neighbor P4_TO_P8 p4est mesh bt mirror = true).
  { apply host_iff. exists dir, nb. repeat split; try done; lia. }
  rewrite built_qflag, Hhost in Hf by lia. injection Hf as <-.
  pose proof (count_nonneg (has_finer_neighbor P4_TO_P8 p4est mesh bt) mirror).
  lia.
Qed.

(** ** The values fit the index type *)

Lemma Forall_tab {A} (P : A → Prop) (f : Z → A) n :
  (∀ i, 0 ≤ i < n → P (f i)) → Forall P (tab f n).
Proof.
  intros Hf. apply Forall_forall. intros x Hx. unfold tab in Hx.
  apply list_elem_of_fmap in Hx as (i & -> & Hi).
  apply elem_of_seqZ in Hi. apply Hf. lia.
Qed.

(** X21.  The model computes with unbounded integers, the code with
    [p4est_locidx_t].  Whatever the largest value of that type is, when
    [(1 + CHILDREN)] times the number of owned quadrants and times the
    number of ghosts stay below it, every flag and every offset of the
    structure the constructor returns is -1 or an index below it: the
    [real + CHILDREN * virt] sums of the code do not overflow. *)
Theorem values_fit_locidx (P4_TO_P8 : bool) (QMAX : Z) (p4est : p4est_t)
  (ghost : p4est_ghost_t) (mesh : p4est_mesh_t) (bt : p4est_connect_type_t)
  (cl : bool) (P4EST_LOCIDX_MAX : Z) :
  mesh_ok P4_TO_P8 QMAX p4est ghost mesh bt = true →
  (1 + P4EST_CHILDREN P4_TO_P8) * mesh_local_num_quadrants mesh
  ≤ P4EST_LOCIDX_MAX →
  (1 + P4EST_CHILDREN P4_TO_P8) * mesh_ghost_num_quadrants mesh
  ≤ P4EST_LOCIDX_MAX →
  ∃ vq,
    p4est_virtual_new_ext P4_TO_P8 QMAX p4est ghost mesh bt cl = Some vq
    ∧ Forall (λ v, -1 ≤ v ≤ P4EST_LOCIDX_MAX) (virtual_qflags vq)
    ∧ Forall (λ v, -1 ≤ v ≤ P4EST_LOCIDX_MAX) (virtual_gflags vq)
    ∧ ∀ ll, level_lists vq = Some ll →
        Forall (λ v, -1 ≤ v ≤ P4EST_LOCIDX_MAX) (quad_qreal_offset ll)
        ∧ Forall (λ v, -1 ≤ v ≤ P4EST_LOCIDX_MAX) (quad_qvirtual_offset ll)
        ∧ Forall (λ v, -1 ≤ v ≤ P4EST_LOCIDX_MAX) (quad_greal_offset ll)
        ∧ Forall (λ v, -1 ≤ v ≤ P4EST_LOCIDX_MAX) (quad_gvirtual_offset ll).
Proof.
  intros Hok HL HG.
  assert (HCH : 0 < P4EST_CHILDREN P4_TO_P8)
    by (unfold P4EST_CHILDREN; destruct P4_TO_P8; lia).
  exists (built P4_TO_P8 QMAX p4est ghost mesh bt cl).
  split; [by apply new_ext_closed|].
  split; [|split].
  - cbn [built pass2_state st_virtual virtual_qflags].
    apply Forall_tab. intros q Hq. unfold qflag_at.
    pose proof (count_nonneg (has_finer_neighbor P4_TO_P8 p4est mesh bt) q).
    pose proof (count_le (has_finer_neighbor P4_TO_P8 p4est mesh bt) q).
    destruct (_ && _); nia.
  - cbn [built pass2_state st_virtual virtual_gflags].
    apply Forall_tab. intros g Hg. unfold gflag_at.
    pose proof (count_nonneg (marked P4_TO_P8 p4est mesh bt) g).
    pose proof (count_le (marked P4_TO_P8 p4est mesh bt) g).
    destruct (marked P4_TO_P8 p4est mesh bt g),
      (g <? mesh_ghost_num_quadrants mesh); nia.
  - destruct cl; [|discriminate].
    rewrite built_level_lists. intros ll [= <-].
    cbn [quad_qreal_offset quad_qvirtual_offset quad_greal_offset
         quad_gvirtual_offset].
    repeat split; apply Forall_tab; intros i Hi; cbv beta.
    + pose proof (offsets_in_range _ _ _ _ _ _ Hok
                    (has_finer_neighbor P4_TO_P8 p4est mesh bt)
                    (quadrant_level p4est) (mesh_local_num_quadrants mesh)
                    i ltac:(lia)). nia.
    + pose proof (offsets_in_range _ _ _ _ _ _ Hok
                    (has_finer_neighbor P4_TO_P8 p4est mesh bt)
                    (quadrant_level p4est) (mesh_local_num_quadrants mesh)
                    i ltac:(lia)). nia.
    + pose proof (offsets_in_range _ _ _ _ _ _ Hok
                    (marked P4_TO_P8 p4est mesh bt)
                    (ghost_level ghost) (mesh_ghost_num_quadrants mesh)
                    i ltac:(lia)). nia.
    + pose proof (offsets_in_range _ _ _ _ _ _ Hok
                    (marked P4_TO_P8 p4est mesh bt)
                    (ghost_level ghost) (mesh_ghost_num_quadrants mesh)
                    i ltac:(lia)). nia.
Qed.

(** ** The further properties on the fixtures *)

Lemma owned_flags_dense_witness :
  mesh_ok false 29 Mixed.p4est Mixed.ghost Mixed.mesh P4EST_CONNECT_FACE = true
  ∧ ∃ vq,
      p4est_virtual_new_ext false 29 Mixed.p4est Mixed.ghost Mixed.mesh
        P4EST_CONNECT_FACE false = Some vq
      ∧ ∀ q, 0 ≤ q < mesh_local_num_quadrants Mixed.mesh →
          load (virtual_qflags vq) q
          = Some (if flag_set (virtual_qflags vq) q
                  then count (flag_set (virtual_qflags vq)) q
                  else -1).
Proof.
  split; [reflexivity|].
  apply (owned_flags_dense false 29 Mixed.p4est Mixed.ghost Mixed.mesh
           P4EST_CONNECT_FACE false).
  reflexivity.
Defined.

Lemma level_lists_keep_flags_witness :
  mesh_ok false 29 Mixed.p4est Mixed.ghost Mixed.mesh P4EST_CONNECT_FACE = true
  ∧ ∃ v0 v1,
      p4est_virtual_new false 29 Mixed.p4est Mixed.ghost Mixed.mesh
        P4EST_CONNECT_FACE = Some v0
      ∧ p4est_virtual_new_ext false 29 Mixed.p4est Mixed.ghost Mixed.mesh
          P4EST_CONNECT_FACE true = Some v1
      ∧ level_lists v0 = None
      ∧ virtual_qflags v0 = virtual_qflags v1
      ∧ virtual_gflags v0 = virtual_gflags v1.
Proof.
  split; [reflexivity|].
  destruct (level_lists_keep_flags false 29 Mixed.p4est Mixed.ghost
              Mixed.mesh P4EST_CONNECT_FACE eq_refl)
    as (v0 & v1 & H0 & H1 & Hn & _ & Hq & Hg & _).
  exists v0, v1. repeat split; assumption.
Defined.

Lemma richer_connectivity_keeps_hosts_witness :
  mesh_ok false 29 Mixed.p4est Mixed.ghost Mixed.mesh P4EST_CONNECT_FACE = true
  ∧ mesh_ok false 29 Mixed.p4est Mixed.ghost Mixed.mesh P4EST_CONNECT_FULL
    = true
  ∧ directions false P4EST_CONNECT_FACE ≤ directions false P4EST_CONNECT_FULL
  ∧ ∃ v1 v2,
      p4est_virtual_new_ext false 29 Mixed.p4est Mixed.ghost Mixed.mesh
        P4EST_CONNECT_FACE true = Some v1
      ∧ p4est_virtual_new_ext false 29 Mixed.p4est Mixed.ghost Mixed.mesh
          P4EST_CONNECT_FULL true = Some v2
      ∧ (∀ q, 0 ≤ q < mesh_local_num_quadrants Mixed.mesh →
           flag_set (virtual_qflags v1) q = true →
           flag_set (virtual_qflags v2) q = true)
      ∧ (∀ g, 0 ≤ g < mesh_ghost_num_quadrants Mixed.mesh →
           flag_set (virtual_gflags v1) g = true →
           flag_set (virtual_gflags v2) g = true).
Proof.
  split; [reflexivity|]. split; [reflexivity|].
  split; [vm_compute; discriminate|].
  apply (richer_connectivity_keeps_hosts false 29 Mixed.p4est Mixed.ghost
           Mixed.mesh P4EST_CONNECT_FACE P4EST_CONNECT_FULL true);
    [reflexivity|reflexivity|vm_compute; discriminate].
Defined.

Lemma owned_layout_disjoint_witness :
  mesh_ok false 29 Mixed.p4est Mixed.ghost Mixed.mesh P4EST_CONNECT_FACE = true
  ∧ ∃ vq ll r v',
      p4est_virtual_new_ext false 29 Mixed.p4est Mixed.ghost Mixed.mesh
        P4EST_CONNECT_FACE true = Some vq
      ∧ level_lists vq = Some ll
      ∧ load (quad_qreal_offset ll) 1 = Some r
      ∧ load (quad_qvirtual_offset ll) 3 = Some v'
      ∧ r + 1 ≤ v'.
Proof.
  split; [reflexivity|].
  destruct (owned_layout_disjoint false 29 Mixed.p4est Mixed.ghost Mixed.mesh
              P4EST_CONNECT_FACE eq_refl)
    as (vq & ll & Hnew & Hll & Hlay).
  destruct (Hlay 1 3 ltac:(lia) ltac:(lia) ltac:(simpl; lia))
    as (r & r' & v & v' & Hr & _ & _ & Hv' & _ & _ & Hrv & _).
  exists vq, ll, r, v'.
  split; [exact Hnew|]. split; [exact Hll|].
  split; [exact Hr|]. split; [exact Hv'|].
  apply Hrv; [|reflexivity].
  vm_compute in Hnew. injection Hnew as <-. reflexivity.
Defined.

Lemma ghost_layout_disjoint_witness :
  mesh_ok false 29 Mixed.p4est Mixed.ghost Mixed.mesh P4EST_CONNECT_FACE = true
  ∧ ∃ vq ll v r',
      p4est_virtual_new_ext false 29 Mixed.p4est Mixed.ghost Mixed.mesh
        P4EST_CONNECT_FACE true = Some vq
      ∧ level_lists vq = Some ll
      ∧ load (quad_gvirtual_offset ll) 0 = Some v
      ∧ load (quad_greal_offset ll) 1 = Some r'
      ∧ v + P4EST_CHILDREN false ≤ r'.
Proof.
  split; [reflexivity|].
  destruct (ghost_layout_disjoint false 29 Mixed.p4est Mixed.ghost Mixed.mesh
              P4EST_CONNECT_FACE eq_refl)
    as (vq & ll & Hnew & Hll & Hlay).
  destruct (Hlay 0 1 ltac:(lia) ltac:(lia) ltac:(simpl; lia))
    as (r & r' & v & v' & _ & Hr' & Hv & _ & _ & Hvr & _).
  exists vq, ll, v, r'.
  split; [exact Hnew|]. split; [exact Hll|].
  split; [exact Hv|]. split; [exact Hr'|].
  apply Hvr; [|reflexivity].
  vm_compute in Hnew. injection Hnew as <-. reflexivity.
Defined.

Lemma classification_write_once_witness :
  mesh_ok false 29 Mixed.p4est Mixed.ghost Mixed.mesh P4EST_CONNECT_FACE = true
  ∧ 0 ≤ 2 ∧ 2 ≤ mesh_local_num_quadrants Mixed.mesh
  ∧ ∃ st vq,
      foldM (classify_quadrant false Mixed.p4est Mixed.ghost Mixed.mesh)
        (seqZ 0 2)
        (start_pass 29
           (allocate_virtual 29 Mixed.mesh P4EST_CONNECT_FACE true) (-1))
      = Some st
      ∧ p4est_virtual_new_ext false 29 Mixed.p4est Mixed.ghost Mixed.mesh
          P4EST_CONNECT_FACE true = Some vq
      ∧ ∀ q, 0 ≤ q < mesh_local_num_quadrants Mixed.mesh →
          load (virtual_qflags (st_virtual st)) q
          = if q <? 2 then load (virtual_qflags vq) q else Some (-1).
Proof.
  split; [reflexivity|]. split; [lia|]. split; [simpl; lia|].
  destruct (classification_write_once false 29 Mixed.p4est Mixed.ghost
              Mixed.mesh P4EST_CONNECT_FACE 2 eq_refl
              ltac:(lia) ltac:(simpl; lia))
    as (st & vq & _ & _ & Hrun & Hnew & _ & _ & Hq & _).
  exists st, vq. split; [exact Hrun|]. split; [exact Hnew|exact Hq].
Defined.

Lemma inner_keeps_ghost_flags_witness :
  ∃ st',
    has_virtuals_inner false Mixed.p4est Mixed.ghost Mixed.mesh 0
      (start_pass 29
         (allocate_virtual 29 Mixed.mesh P4EST_CONNECT_FACE true) (-1))
    = Some st'
    ∧ virtual_gflags (st_virtual st') = [-1; -1].
Proof.
  destruct (has_virtuals_inner false Mixed.p4est Mixed.ghost Mixed.mesh 0
              (start_pass 29
                 (allocate_virtual 29 Mixed.mesh P4EST_CONNECT_FACE true)
                 (-1)))
    as [st'|] eqn:E; [|vm_compute in E; discriminate E].
  exists st'. split; [reflexivity|].
  apply (inner_keeps_ghost_flags false Mixed.p4est Mixed.ghost Mixed.mesh 0
           _ st' E).
Defined.

Lemma boundary_marks_coarser_ghosts_witness :
  ∃ st',
    has_virtuals_parallel_boundary false Mixed.p4est Mixed.ghost Mixed.mesh 1
      (start_pass 29
         (allocate_virtual 29 Mixed.mesh P4EST_CONNECT_FACE true) (-1))
    = Some st'
    ∧ length (virtual_gflags (st_virtual st')) = 2%nat.
Proof.
  destruct (has_virtuals_parallel_boundary false Mixed.p4est Mixed.ghost
              Mixed.mesh 1
              (start_pass 29
                 (allocate_virtual 29 Mixed.mesh P4EST_CONNECT_FACE true)
                 (-1)))
    as [st'|] eqn:E; [|vm_compute in E; discriminate E].
  exists st'. split; [reflexivity|].
  apply (boundary_marks_coarser_ghosts false Mixed.p4est Mixed.ghost
           Mixed.mesh 1 _ st' E).
Defined.

Lemma inner_refines_boundary_witness :
  ∃ sb,
    has_virtuals_parallel_boundary false Mixed.p4est Mixed.ghost Mixed.mesh 1
      (start_pass 29
         (allocate_virtual 29 Mixed.mesh P4EST_CONNECT_FACE true) (-1))
    = Some sb
    ∧ has_virtuals_inner false Mixed.p4est Mixed.ghost Mixed.mesh 1
        (start_pass 29
           (allocate_virtual 29 Mixed.mesh P4EST_CONNECT_FACE true) (-1))
      = Some (with_gflags sb [-1; -1]).
Proof.
  destruct (has_virtuals_parallel_boundary false Mixed.p4est Mixed.ghost
              Mixed.mesh 1
              (start_pass 29
                 (allocate_virtual 29 Mixed.mesh P4EST_CONNECT_FACE true)
                 (-1)))
    as [sb|] eqn:E; [|vm_compute in E; discriminate E].
  exists sb. split; [reflexivity|].
  apply (inner_refines_boundary false Mixed.p4est Mixed.ghost Mixed.mesh 1
           _ sb E).
Defined.

Lemma mirror_resolver_as_written_witness :
  resolver_ok false Mixed.ghost Mixed.mesh
    (built false 29 Mixed.p4est Mixed.ghost Mixed.mesh P4EST_CONNECT_FACE
       false)
    P4EST_CONNECT_FACE (mpisize Mixed.p4est) = true
  ∧ ∃ vg,
      p4est_virtual_ghost_new false Mixed.p4est Mixed.ghost Mixed.mesh
        (built false 29 Mixed.p4est Mixed.ghost Mixed.mesh
           P4EST_CONNECT_FACE false)
        P4EST_CONNECT_FACE = Some vg.
Proof.
  assert (Hok : resolver_ok false Mixed.ghost Mixed.mesh
                  (built false 29 Mixed.p4est Mixed.ghost Mixed.mesh
                     P4EST_CONNECT_FACE false)
                  P4EST_CONNECT_FACE (mpisize Mixed.p4est) = true)
    by (vm_compute; reflexivity).
  split; [exact Hok|].
  destruct (mirror_resolver_as_written false Mixed.p4est Mixed.ghost
              Mixed.mesh _ P4EST_CONNECT_FACE Hok) as (vg & Hvg & _).
  exists vg. exact Hvg.
Defined.

Lemma resolver_shape_witness :
  resolver_ok false Mixed.ghost Mixed.mesh
    (built false 29 Mixed.p4est Mixed.ghost Mixed.mesh P4EST_CONNECT_FACE
       false)
    P4EST_CONNECT_FACE (mpisize Mixed.p4est) = true
  ∧ ∃ vg,
      p4est_virtual_ghost_new false Mixed.p4est Mixed.ghost Mixed.mesh
        (built false 29 Mixed.p4est Mixed.ghost Mixed.mesh
           P4EST_CONNECT_FACE false)
        P4EST_CONNECT_FACE = Some vg
      ∧ Z.of_nat (length (mirror_proc_virtuals vg)) = 2.
Proof.
  assert (Hok : resolver_ok false Mixed.ghost Mixed.mesh
                  (built false 29 Mixed.p4est Mixed.ghost Mixed.mesh
                     P4EST_CONNECT_FACE false)
                  P4EST_CONNECT_FACE (mpisize Mixed.p4est) = true)
    by (vm_compute; reflexivity).
  split; [exact Hok|].
  destruct (resolver_shape false Mixed.p4est Mixed.ghost Mixed.mesh _
              P4EST_CONNECT_FACE Hok)
    as (vg & mirrors & Hvg & _ & Hm & Hlen & _).
  exists vg. split; [exact Hvg|].
  vm_compute in Hm. injection Hm as <-. exact Hlen.
Defined.

Lemma resolver_reports_hosts_only_witness :
  mesh_ok false 29 Mixed.p4est Mixed.ghost Mixed.mesh P4EST_CONNECT_FULL = true
  ∧ encoding_ok false Mixed.p4est Mixed.mesh P4EST_CONNECT_FACE = true
  ∧ directions false P4EST_CONNECT_FACE ≤ directions false P4EST_CONNECT_FULL
  ∧ ∃ vq vg,
      p4est_virtual_new_ext false 29 Mixed.p4est Mixed.ghost Mixed.mesh
        P4EST_CONNECT_FULL false = Some vq
      ∧ resolver_ok false Mixed.ghost Mixed.mesh vq P4EST_CONNECT_FACE
          (mpisize Mixed.p4est) = true
      ∧ p4est_virtual_ghost_new false Mixed.p4est Mixed.ghost Mixed.mesh vq
          P4EST_CONNECT_FACE = Some vg.
Proof.
  assert (Hmesh : mesh_ok false 29 Mixed.p4est Mixed.ghost Mixed.mesh
                    P4EST_CONNECT_FULL = true) by (vm_compute; reflexivity).
  assert (Henc : encoding_ok false Mixed.p4est Mixed.mesh P4EST_CONNECT_FACE
                 = true) by (vm_compute; reflexivity).
  assert (Hdir : directions false P4EST_CONNECT_FACE
                 ≤ directions false P4EST_CONNECT_FULL)
    by (vm_compute; discriminate).
  assert (Hnew : p4est_virtual_new_ext false 29 Mixed.p4est Mixed.ghost
                   Mixed.mesh P4EST_CONNECT_FULL false
                 = Some (built false 29 Mixed.p4est Mixed.ghost Mixed.mesh
                           P4EST_CONNECT_FULL false))
    by (vm_compute; reflexivity).
  assert (Hrok : resolver_ok false Mixed.ghost Mixed.mesh
                   (built false 29 Mixed.p4est Mixed.ghost Mixed.mesh
                      P4EST_CONNECT_FULL false)
                   P4EST_CONNECT_FACE (mpisize Mixed.p4est) = true)
    by (vm_compute; reflexivity).
  split; [exact Hmesh|]. split; [exact Henc|]. split; [exact Hdir|].
  destruct (resolver_reports_hosts_only false 29 Mixed.p4est Mixed.ghost
              Mixed.mesh P4EST_CONNECT_FULL P4EST_CONNECT_FACE false _
              Hmesh Hnew Hrok Henc Hdir) as (vg & Hvg & _).
  eexists. exists vg. split; [exact Hnew|]. split; [exact Hrok|exact Hvg].
Defined.

Lemma ghost_store_escapes_witness :
  Z.of_nat (length [-1]) = 1
  ∧ 2 ∈ seqZ 0 4
  ∧ {| nb_quad := Mixed.coarse; nb_enc := 12; nb_qid := 4 |}
      ∈ mesh_neighbors Mixed.mesh 1 2
  ∧ boundary_directions Mixed.p4est Mixed.ghost Mixed.mesh 3 1 1 2
      (seqZ 0 4) (false, [-1]) = None.
Proof.
  assert (Hd : 2 ∈ seqZ 0 4) by (apply elem_of_seqZ; lia).
  assert (Hn : {| nb_quad := Mixed.coarse; nb_enc := 12; nb_qid := 4 |}
                 ∈ mesh_neighbors Mixed.mesh 1 2)
    by apply list_elem_of_here.
  split; [reflexivity|]. split; [exact Hd|]. split; [exact Hn|].
  apply (ghost_store_escapes Mixed.p4est Mixed.ghost Mixed.mesh 3 1 1 2
           (seqZ 0 4) false [-1] 2 _ eq_refl Hd Hn);
    [reflexivity|simpl; lia].
Defined.

Lemma values_fit_locidx_witness :
  mesh_ok false 29 Mixed.p4est Mixed.ghost Mixed.mesh P4EST_CONNECT_FACE = true
  ∧ (1 + P4EST_CHILDREN false) * mesh_local_num_quadrants Mixed.mesh
    ≤ 2147483647
  ∧ (1 + P4EST_CHILDREN false) * mesh_ghost_num_quadrants Mixed.mesh
    ≤ 2147483647
  ∧ ∃ vq,
      p4est_virtual_new_ext false 29 Mixed.p4est Mixed.ghost Mixed.mesh
        P4EST_CONNECT_FACE true = Some vq
      ∧ Forall (λ v, -1 ≤ v ≤ 2147483647) (virtual_qflags vq)
      ∧ Forall (λ v, -1 ≤ v ≤ 2147483647) (virtual_gflags vq).
Proof.
  split; [reflexivity|]. split; [by vm_compute|]. split; [by vm_compute|].
  destruct (values_fit_locidx false 29 Mixed.p4est Mixed.ghost Mixed.mesh
              P4EST_CONNECT_FACE true 2147483647 eq_refl
              ltac:(by vm_compute) ltac:(by vm_compute))
    as (vq & Hnew & Hq & Hg & _).
  exists vq. split; [exact Hnew|]. split; [exact Hq|exact Hg].
Defined.
